(** * DSKY display core: frame decoding, channel decoding, display state

    A shallow embedding of the Python sources
      - [dsky_display.py]          (class [DisplayState])
      - [dsky_channel_decoder.py]  (digit recovery, channel 10/11/13 decoders)
      - [dsky_main.py]             (class [AGCCommunicator]: packet reception,
                                    packet dispatch, communication loop)
    together with the properties stated about them.

    Conventions.  Python integers are [Z]; a [bytearray] is a [list Z] whose
    elements are bytes; Python lists of digits are [list Z]; [None] is the
    [None] of an [option].  The lock of [DisplayState] only serialises the
    writers and the snapshot reader: every function below is the body that
    runs while the lock is held, and is executed sequentially. *)

From Stdlib Require Import ZArith Lia Ascii String.
From stdpp Require Import base option list strings gmap.

Local Open Scope Z_scope.

(** ** Display state ([dsky_display.py]) *)

Module Display.

Record DisplayState := mkDisplayState {
  prog : list Z;
  verb : list Z;
  noun : list Z;
  r1 : list Z;
  r2 : list Z;
  r3 : list Z;
  r1_sign : option string;
  r2_sign : option string;
  r3_sign : option string;
  comp_acty : bool;
  connected : bool
}.

(** [DisplayState.__init__] *)
Definition DisplayState_init : DisplayState :=
  {| prog := [0; 0]; verb := [0; 0]; noun := [0; 0];
     r1 := [0; 0; 0; 0; 0]; r2 := [0; 0; 0; 0; 0]; r3 := [0; 0; 0; 0; 0];
     r1_sign := None; r2_sign := None; r3_sign := None;
     comp_acty := false;
     connected := true |}.

(** Attribute assignment [self.f = v], one function per attribute. *)
Definition with_prog (l : list Z) (s : DisplayState) : DisplayState :=
  mkDisplayState l (verb s) (noun s) (r1 s) (r2 s) (r3 s)
    (r1_sign s) (r2_sign s) (r3_sign s) (comp_acty s) (connected s).
Definition with_verb (l : list Z) (s : DisplayState) : DisplayState :=
  mkDisplayState (prog s) l (noun s) (r1 s) (r2 s) (r3 s)
    (r1_sign s) (r2_sign s) (r3_sign s) (comp_acty s) (connected s).
Definition with_noun (l : list Z) (s : DisplayState) : DisplayState :=
  mkDisplayState (prog s) (verb s) l (r1 s) (r2 s) (r3 s)
    (r1_sign s) (r2_sign s) (r3_sign s) (comp_acty s) (connected s).
Definition with_r1 (l : list Z) (s : DisplayState) : DisplayState :=
  mkDisplayState (prog s) (verb s) (noun s) l (r2 s) (r3 s)
    (r1_sign s) (r2_sign s) (r3_sign s) (comp_acty s) (connected s).
Definition with_r2 (l : list Z) (s : DisplayState) : DisplayState :=
  mkDisplayState (prog s) (verb s) (noun s) (r1 s) l (r3 s)
    (r1_sign s) (r2_sign s) (r3_sign s) (comp_acty s) (connected s).
Definition with_r3 (l : list Z) (s : DisplayState) : DisplayState :=
  mkDisplayState (prog s) (verb s) (noun s) (r1 s) (r2 s) l
    (r1_sign s) (r2_sign s) (r3_sign s) (comp_acty s) (connected s).
Definition with_r1_sign (g : option string) (s : DisplayState) : DisplayState :=
  mkDisplayState (prog s) (verb s) (noun s) (r1 s) (r2 s) (r3 s)
    g (r2_sign s) (r3_sign s) (comp_acty s) (connected s).
Definition with_r2_sign (g : option string) (s : DisplayState) : DisplayState :=
  mkDisplayState (prog s) (verb s) (noun s) (r1 s) (r2 s) (r3 s)
    (r1_sign s) g (r3_sign s) (comp_acty s) (connected s).
Definition with_r3_sign (g : option string) (s : DisplayState) : DisplayState :=
  mkDisplayState (prog s) (verb s) (noun s) (r1 s) (r2 s) (r3 s)
    (r1_sign s) (r2_sign s) g (comp_acty s) (connected s).
Definition with_comp_acty (b : bool) (s : DisplayState) : DisplayState :=
  mkDisplayState (prog s) (verb s) (noun s) (r1 s) (r2 s) (r3 s)
    (r1_sign s) (r2_sign s) (r3_sign s) b (connected s).
Definition with_connected (b : bool) (s : DisplayState) : DisplayState :=
  mkDisplayState (prog s) (verb s) (noun s) (r1 s) (r2 s) (r3 s)
    (r1_sign s) (r2_sign s) (r3_sign s) (comp_acty s) b.

(** [set_prog], [set_verb], [set_noun]: the attribute is rebound to a fresh
    two-element list. *)
Definition set_prog (m1 m2 : Z) (s : DisplayState) : DisplayState :=
  with_prog [m1; m2] s.
Definition set_verb (v1 v2 : Z) (s : DisplayState) : DisplayState :=
  with_verb [v1; v2] s.
Definition set_noun (n1 n2 : Z) (s : DisplayState) : DisplayState :=
  with_noun [n1; n2] s.

(** Exceptions an update of the display state can raise. *)
Inductive exn := IndexError.

(** The result of running a block of statements on the display state: it
    either falls through, or raises; in both cases the state is the one the
    statements executed so far have left behind. *)
Inductive outcome :=
| Normal (s : DisplayState)
| Raise (e : exn) (s : DisplayState).

Definition and_then (o : outcome) (k : DisplayState -> outcome) : outcome :=
  match o with
  | Normal s => k s
  | Raise e s => Raise e s
  end.

(** Item assignment [l[i] = x] on a Python list, for a non-negative constant
    index: an index past the end raises [IndexError] and stores nothing. *)
Definition setitem (l : list Z) (i : nat) (x : Z) : option (list Z) :=
  if decide (i < length l)%nat then Some (<[i := x]> l) else None.

Definition store
    (get : DisplayState -> list Z)
    (put : list Z -> DisplayState -> DisplayState)
    (i : nat) (x : Z) (s : DisplayState) : outcome :=
  match setitem (get s) i x with
  | Some l => Normal (put l s)
  | None => Raise IndexError s
  end.

End Display.

Export Display.

Notation "o ;;; k" := (and_then o k) (at level 61, left associativity).

(** ** Channel decoder ([dsky_channel_decoder.py]) *)

Module Decoder.

(** The entries of the dictionary display [SEVEN_SEGMENT_TO_DIGIT], in source
    order.  Three keys are written twice. *)
Definition SEVEN_SEGMENT_TO_DIGIT_entries : list (Z * option Z) :=
  [ (31, Some 0);   (* 0b11111 *)
    (6,  Some 1);   (* 0b00110 *)
    (27, Some 2);   (* 0b11011 *)
    (15, Some 3);   (* 0b01111 *)
    (6,  Some 4);   (* 0b00110 *)
    (13, Some 5);   (* 0b01101 *)
    (29, Some 6);   (* 0b11101 *)
    (7,  Some 7);   (* 0b00111 *)
    (31, Some 8);   (* 0b11111 *)
    (15, Some 9);   (* 0b01111 *)
    (0,  None) ].   (* 0b00000, blank *)

(** A dictionary display evaluates its entries left to right, each one
    storing into the dictionary: a repeated key keeps its last value. *)
Definition dict_display (entries : list (Z * option Z)) : gmap Z (option Z) :=
  foldl (fun m kv => <[kv.1 := kv.2]> m) (∅ : gmap Z (option Z)) entries.

Definition SEVEN_SEGMENT_TO_DIGIT : gmap Z (option Z) :=
  dict_display SEVEN_SEGMENT_TO_DIGIT_entries.

(** [oct(n)]: the octal numeral of [n] with its ["0o"] prefix, and a leading
    minus sign for a negative [n]. *)
Definition octal_char (d : Z) : ascii :=
  ascii_of_N (48 + Z.to_N d).

Fixpoint octal_digits (fuel : nat) (n : Z) (acc : string) : string :=
  match fuel with
  | O => acc
  | S fuel' =>
      let acc' := String (octal_char (n mod 8)) acc in
      if n / 8 =? 0 then acc' else octal_digits fuel' (n / 8) acc'
  end.

Definition oct (n : Z) : string :=
  let digits m := octal_digits (S (Z.to_nat (Z.log2 m))) m EmptyString in
  if n <? 0 then ("-0o" +:+ digits (- n))%string
  else ("0o" +:+ digits n)%string.

(** [int(c)] for a one-character string: the decimal digit it denotes, or
    [None] where Python raises [ValueError]. *)
Definition int_of_char (c : ascii) : option Z :=
  let k := Z.of_N (N_of_ascii c) in
  if (48 <=? k) && (k <=? 57) then Some (k - 48) else None.

(** The [try] block of [seven_segment_to_digit].  [Some r] is a [return r]
    from inside the block; [None] means that control leaves the block without
    returning, either by falling through or through the bare [except: pass]. *)
Definition octal_stage (bits : Z) : option (option Z) :=
  let octal_str := String.substring 2 (String.length (oct bits) - 2) (oct bits) in
  match octal_str with
  | String c0 (String c1 EmptyString) =>
      if Ascii.eqb c0 "0"%char then
        match int_of_char c1 with
        | Some digit =>
            if (0 <=? digit) && (digit <=? 9) then Some (Some digit) else None
        | None => None
        end
      else None
  | String c0 EmptyString =>
      match int_of_char c0 with
      | Some digit => Some (Some digit)
      | None => None
      end
  | _ => None
  end.

(** [seven_segment_to_digit]; the result [None] is Python's [None] (blank). *)
Definition seven_segment_to_digit (bits : Z) : option Z :=
  if (0 <=? bits) && (bits <=? 9) then Some bits
  else
    match SEVEN_SEGMENT_TO_DIGIT !! bits with
    | Some entry => entry
    | None =>
        match octal_stage bits with
        | Some r => r
        | None => Some (bits mod 10)
        end
    end.

(** [d or 0]: the left operand when it is truthy, otherwise [0].  [None] and
    the integer [0] are the falsy values. *)
Definition or_zero (d : option Z) : Z :=
  match d with
  | Some x => if x =? 0 then 0 else x
  | None => 0
  end.

(** ['-' if sign_bit else '+'] *)
Definition sign_of (sign_bit : Z) : option string :=
  if sign_bit =? 0 then Some "+"%string else Some "-"%string.

(** [decode_channel10] *)
Definition decode_channel10 (value : Z) (display_state : DisplayState) : outcome :=
  let relay := Z.land (Z.shiftr value 11) 15 in
  let sign_bit := Z.land (Z.shiftr value 10) 1 in
  let digit1_bits := Z.land (Z.shiftr value 5) 31 in
  let digit2_bits := Z.land value 31 in
  let d1 := seven_segment_to_digit digit1_bits in
  let d2 := seven_segment_to_digit digit2_bits in
  if relay =? 11 then
    Normal (set_prog (or_zero d1) (or_zero d2) display_state)
  else if relay =? 10 then
    Normal (set_verb (or_zero d1) (or_zero d2) display_state)
  else if relay =? 9 then
    Normal (set_noun (or_zero d1) (or_zero d2) display_state)
  else if relay =? 8 then
    store r1 with_r1 0 (or_zero d1) display_state ;;;
    store r1 with_r1 1 (or_zero d2)
  else if relay =? 7 then
    store r1 with_r1 2 (or_zero d1) display_state ;;;
    store r1 with_r1 3 (or_zero d2) ;;;
    (fun s => Normal (with_r1_sign (sign_of sign_bit) s))
  else if relay =? 6 then
    store r1 with_r1 3 (or_zero d1) display_state ;;;
    store r1 with_r1 4 (or_zero d2)
  else if relay =? 5 then
    store r2 with_r2 0 (or_zero d1) display_state ;;;
    store r2 with_r2 1 (or_zero d2) ;;;
    (fun s => Normal (with_r2_sign (sign_of sign_bit) s))
  else if relay =? 4 then
    store r2 with_r2 2 (or_zero d1) display_state ;;;
    store r2 with_r2 3 (or_zero d2)
  else if relay =? 3 then
    store r2 with_r2 4 (or_zero d1) display_state ;;;
    store r3 with_r3 0 (or_zero d2)
  else if relay =? 2 then
    store r3 with_r3 1 (or_zero d1) display_state ;;;
    store r3 with_r3 2 (or_zero d2) ;;;
    (fun s => Normal (with_r3_sign (sign_of sign_bit) s))
  else if relay =? 1 then
    store r3 with_r3 3 (or_zero d1) display_state ;;;
    store r3 with_r3 4 (or_zero d2)
  else if relay =? 12 then
    Normal display_state
  else
    Normal display_state.

(** [decode_channel11] *)
Definition decode_channel11 (value : Z) (display_state : DisplayState) : outcome :=
  let comp_acty := Z.land (Z.shiftr value 1) 1 in
  Normal (with_comp_acty (negb (comp_acty =? 0)) display_state).

(** [decode_channel13] *)
Definition decode_channel13 (value : Z) (display_state : DisplayState) : outcome :=
  Normal display_state.

End Decoder.

Export Decoder.

(** ** Communication with yaAGC ([dsky_main.py], class [AGCCommunicator])

    Left out of the model, because no decision of the code depends on them:
    the [print] calls, [time.sleep], and the attribute [last_packet_time],
    which is written and never read. *)

Module Comm.

(** *** The transport

    The non-blocking socket is an oracle: the list of what the successive
    reads will meet.  [Data bs] is a chunk of bytes that has arrived and
    sits in the receive queue; [WouldBlock] is a moment at which the queue is
    empty ([BlockingIOError]); [Timeout] raises [socket.timeout]; [Fail]
    raises any other exception (a reset connection, for instance).  The empty
    oracle is a stream the peer has closed: every read returns zero bytes.
    [NotConnected] is the state of a socket object on which no [connect] call
    has succeeded: a read raises [OSError], and so does every later read. *)
Inductive event :=
| Data (bs : list Z)
| WouldBlock
| Timeout
| Fail
| NotConnected.

Definition socket := list event.

Inductive recv_outcome :=
| Received (bs : list Z)
| BlockingIOError
| socket_timeout
| OtherException.

(** [sock.recv_into(view, nbytes)]: at most [nbytes] bytes are taken from
    the chunk at the head of the queue; what is left of the chunk stays
    queued. *)
Definition recv_into (nbytes : nat) (sock : socket) : recv_outcome * socket :=
  match sock with
  | [] => (Received [], [])
  | Data bs :: rest =>
      (Received (take nbytes bs),
       match drop nbytes bs with
       | [] => rest
       | more => Data more :: rest
       end)
  | WouldBlock :: rest => (BlockingIOError, rest)
  | Timeout :: rest => (socket_timeout, rest)
  | Fail :: rest => (OtherException, rest)
  | NotConnected :: rest => (OtherException, NotConnected :: rest)
  end.

(** [socket.socket(socket.AF_INET, socket.SOCK_STREAM)], before any
    successful [connect]: the object each connection attempt binds to
    [self.socket] first. *)
Definition unconnected : socket := [NotConnected].

(** *** [receive_packet] *)

Definition packet_size : nat := 4.

(** [view] is the slice of [input_buffer] that starts at offset [pos]:
    [recv_into] stores the bytes it received from there on. *)
Fixpoint write_at (input_buffer : list Z) (pos : nat) (bs : list Z) : list Z :=
  match bs with
  | [] => input_buffer
  | b :: bs' => write_at (<[pos := b]> input_buffer) (S pos) bs'
  end.

(** The sanity check and the parse of a full [input_buffer] (the statements
    after the [while] loop). *)
Definition parse_packet (input_buffer : list Z) : option (Z * Z) :=
  let b0 := input_buffer !!! 0%nat in
  let b1 := input_buffer !!! 1%nat in
  let b2 := input_buffer !!! 2%nat in
  let b3 := input_buffer !!! 3%nat in
  if negb (Z.land b0 0xF0 =? 0x00) then None
  else if negb (Z.land b1 0xC0 =? 0x40) then None
  else if negb (Z.land b2 0xC0 =? 0x80) then None
  else if negb (Z.land b3 0xC0 =? 0xC0) then None
  else
    let channel := Z.shiftl (Z.land b0 0x0F) 3 in
    let channel := Z.lor channel (Z.shiftr (Z.land b1 0x38) 3) in
    let value := Z.shiftl (Z.land b1 0x07) 12 in
    let value := Z.lor value (Z.shiftl (Z.land b2 0x3F) 6) in
    let value := Z.lor value (Z.land b3 0x3F) in
    Some (channel, value).

(** How the [while left_to_read > 0] loop ends. *)
Inductive read_result :=
| ReadFull (input_buffer : list Z)   (* the loop condition became false *)
| ReadNone                           (* [return None], from the body or a handler *)
| ReadFuel.                          (* the model ran out of fuel *)

(** The loop.  An iteration that does not return lowers [left_to_read], so
    [left_to_read] iterations are always enough (lemma [read_loop_fuel]). *)
Fixpoint read_loop (fuel : nat) (input_buffer : list Z) (left_to_read : nat)
    (sock : socket) : read_result * socket :=
  match left_to_read with
  | O => (ReadFull input_buffer, sock)
  | S _ =>
      match fuel with
      | O => (ReadFuel, sock)
      | S fuel' =>
          match recv_into left_to_read sock with
          | (Received bs, sock') =>
              let num_bytes := length bs in
              if (num_bytes =? 0)%nat then (ReadNone, sock')
              else
                read_loop fuel'
                  (write_at input_buffer (packet_size - left_to_read) bs)
                  (left_to_read - num_bytes) sock'
          | (BlockingIOError, sock') => (ReadNone, sock')
          | (socket_timeout, sock') => (ReadNone, sock')
          | (OtherException, sock') => (ReadNone, sock')
          end
      end
  end.

(** [receive_packet]: the buffer, the view and the count of bytes left to
    read are local variables, created afresh by each call.  [self.socket] is
    [None] before [connect] and after [disconnect]; calling [recv_into] on it
    raises [AttributeError], which the last handler turns into [None]. *)
Definition receive_packet (self_socket : option socket)
    : option (Z * Z) * option socket :=
  match self_socket with
  | None => (None, None)
  | Some sock =>
      let input_buffer := replicate packet_size 0 in
      let left_to_read := packet_size in
      match read_loop packet_size input_buffer left_to_read sock with
      | (ReadFull buf, sock') => (parse_packet buf, Some sock')
      | (ReadNone, sock') => (None, Some sock')
      | (ReadFuel, sock') => (None, Some sock')
      end
  end.

(** *** [process_packet] *)

Definition process_packet (channel value : Z) (display_state : DisplayState)
    : outcome :=
  let channel_octal := channel in
  if channel_octal =? 8 (* 0o10 *) then decode_channel10 value display_state
  else if channel_octal =? 9 (* 0o11 *) then decode_channel11 value display_state
  else if channel_octal =? 11 (* 0o13 *) then Normal display_state
  else if channel_octal =? 115 (* 0o163 *) then Normal display_state
  else Normal display_state.

(** *** The communicator object *)

Record AGCCommunicator := mkAGCCommunicator {
  self_socket : option socket;
  running : bool;
  display_state : DisplayState
}.

(** [AGCCommunicator.__init__] *)
Definition AGCCommunicator_init (display_state : DisplayState) : AGCCommunicator :=
  {| self_socket := None; running := false; display_state := display_state |}.

(** [connect]: the retry loop is summarised by how it ends, with a connected
    socket ([Some sock]) or with the attempts exhausted ([None]).  The loop
    makes at least one attempt, and every attempt begins by binding
    [self.socket] to a new socket object: when all attempts have failed,
    [self.socket] is the unconnected socket of the last one, which
    [disconnect] will find and close.  The loop itself is [ConnectLoop]
    below. *)
Definition connect (attempt : option socket) (self : AGCCommunicator)
    : bool * AGCCommunicator :=
  match attempt with
  | Some sock =>
      (true, mkAGCCommunicator (Some sock) (running self)
               (with_connected true (display_state self)))
  | None =>
      (false, mkAGCCommunicator (Some unconnected) (running self)
                (with_connected false (display_state self)))
  end.

(** [disconnect]: a socket that is bound is closed (the exceptions of
    [close] are swallowed) and the attribute is reset; the flag is cleared
    in either case. *)
Definition disconnect (self : AGCCommunicator) : AGCCommunicator :=
  mkAGCCommunicator None (running self)
    (with_connected false (display_state self)).

(** [stop] *)
Definition stop (self : AGCCommunicator) : AGCCommunicator :=
  disconnect (mkAGCCommunicator (self_socket self) false (display_state self)).

(** *** [communication_loop] *)

(** How a run of the loop ends. *)
Inductive loop_result :=
| Exited (self : AGCCommunicator)             (* the [while] condition was false *)
| Propagated (e : exn) (self : AGCCommunicator) (* an exception left the loop *)
| StillRunning (self : AGCCommunicator).      (* iterations granted, all used *)

(** One iteration of [while self.running]: the body of the loop.  A tuple
    [(channel, value)] is truthy, [None] is falsy. *)
Definition loop_body (self : AGCCommunicator)
    : exn * AGCCommunicator + AGCCommunicator :=
  let '(packet, sock') := receive_packet (self_socket self) in
  match packet with
  | Some (channel, value) =>
      match process_packet channel value (display_state self) with
      | Normal st => inr (mkAGCCommunicator sock' (running self) st)
      | Raise e st => inl (e, mkAGCCommunicator sock' (running self) st)
      end
  | None => inr (mkAGCCommunicator sock' (running self) (display_state self))
  end.

(** The loop, run for at most [iterations] iterations. *)
Fixpoint main_loop (iterations : nat) (self : AGCCommunicator) : loop_result :=
  if running self then
    match iterations with
    | O => StillRunning self
    | S n =>
        match loop_body self with
        | inr self' => main_loop n self'
        | inl (e, self') => Propagated e self'
        end
    end
  else Exited self.

Definition communication_loop (attempt : option socket) (iterations : nat)
    (self : AGCCommunicator) : loop_result :=
  let self := mkAGCCommunicator (self_socket self) true (display_state self) in
  let '(ok, self) := connect attempt self in
  if negb ok then
    Exited (mkAGCCommunicator (self_socket self) false (display_state self))
  else main_loop iterations self.

End Comm.

Export Comm.

(** * Vocabulary of the properties *)

(** A displayable digit. *)
Definition is_digit (d : Z) : Prop := 0 <= d <= 9.

(** The two tests run on the results of digit recovery: a digit or blank,
    and a digit. *)
Definition digit_or_blank (r : option Z) : bool :=
  match r with
  | Some d => (0 <=? d) && (d <=? 9)
  | None => true
  end.

Definition digit_not_blank (r : option Z) : bool :=
  match r with
  | Some d => (0 <=? d) && (d <=? 9)
  | None => false
  end.

(** The shape [DisplayState.__init__] gives the digit lists: two digits for
    PROG, VERB and NOUN, five for each register. *)
Definition wf_state (s : DisplayState) : Prop :=
  length (prog s) = 2%nat /\ length (verb s) = 2%nat /\ length (noun s) = 2%nat /\
  length (r1 s) = 5%nat /\ length (r2 s) = 5%nat /\ length (r3 s) = 5%nat.

(** Every digit slot holds a value in [0,9]. *)
Definition digits_ok (s : DisplayState) : Prop :=
  Forall is_digit (prog s) /\ Forall is_digit (verb s) /\ Forall is_digit (noun s) /\
  Forall is_digit (r1 s) /\ Forall is_digit (r2 s) /\ Forall is_digit (r3 s).

(** The display state a block of statements leaves behind, however it ends. *)
Definition outcome_state (o : outcome) : DisplayState :=
  match o with
  | Normal s => s
  | Raise _ s => s
  end.

(** The fields of a channel-10 value. *)
Definition relay_of (value : Z) : Z := Z.land (Z.shiftr value 11) 15.
Definition digit1_of (value : Z) : Z := Z.land (Z.shiftr value 5) 31.
Definition digit2_of (value : Z) : Z := Z.land value 31.

(** The two sign characters. *)
Definition sign_string (negative : bool) : string :=
  if negative then "-"%string else "+"%string.

(** The dispatch table of the specification (section 4.2), read as a function
    on display states: what relay code [relay] does with the two digits and
    the sign bit. *)
Definition table_effect (relay : Z) (negative : bool) (digit1 digit2 : Z)
    (s : DisplayState) : DisplayState :=
  match relay with
  | 11 => with_prog [digit1; digit2] s
  | 10 => with_verb [digit1; digit2] s
  | 9 => with_noun [digit1; digit2] s
  | 8 => with_r1 (<[1%nat := digit2]> (<[0%nat := digit1]> (r1 s))) s
  | 7 => with_r1_sign (Some (sign_string negative))
           (with_r1 (<[3%nat := digit2]> (<[2%nat := digit1]> (r1 s))) s)
  | 6 => with_r1 (<[4%nat := digit2]> (<[3%nat := digit1]> (r1 s))) s
  | 5 => with_r2_sign (Some (sign_string negative))
           (with_r2 (<[1%nat := digit2]> (<[0%nat := digit1]> (r2 s))) s)
  | 4 => with_r2 (<[3%nat := digit2]> (<[2%nat := digit1]> (r2 s))) s
  | 3 => with_r3 (<[0%nat := digit2]> (r3 s))
           (with_r2 (<[4%nat := digit1]> (r2 s)) s)
  | 2 => with_r3_sign (Some (sign_string negative))
           (with_r3 (<[2%nat := digit2]> (<[1%nat := digit1]> (r3 s))) s)
  | 1 => with_r3 (<[4%nat := digit2]> (<[3%nat := digit1]> (r3 s))) s
  | _ => s
  end.

(** The slots of the display state, one by one. *)
Inductive field :=
| Prog (i : nat) | Verb (i : nat) | Noun (i : nat)
| R1 (i : nat) | R2 (i : nat) | R3 (i : nat)
| R1Sign | R2Sign | R3Sign
| CompActy | Connected.

(** What a slot holds: a digit (or nothing, past the end of its list), a
    sign, a flag. *)
Inductive field_value :=
| Digit (d : option Z)
| Sign (g : option string)
| Flag (b : bool).

(** Reading a slot. *)
Definition get_field (f : field) (s : DisplayState) : field_value :=
  match f with
  | Prog i => Digit (prog s !! i)
  | Verb i => Digit (verb s !! i)
  | Noun i => Digit (noun s !! i)
  | R1 i => Digit (r1 s !! i)
  | R2 i => Digit (r2 s !! i)
  | R3 i => Digit (r3 s !! i)
  | R1Sign => Sign (r1_sign s)
  | R2Sign => Sign (r2_sign s)
  | R3Sign => Sign (r3_sign s)
  | CompActy => Flag (comp_acty s)
  | Connected => Flag (connected s)
  end.

(** The fields the dispatch table of the specification lists for each relay
    code. *)
Definition table_fields (relay : Z) : list field :=
  match relay with
  | 11 => [Prog 0; Prog 1]
  | 10 => [Verb 0; Verb 1]
  | 9 => [Noun 0; Noun 1]
  | 8 => [R1 0; R1 1]
  | 7 => [R1 2; R1 3; R1Sign]
  | 6 => [R1 3; R1 4]
  | 5 => [R2 0; R2 1; R2Sign]
  | 4 => [R2 2; R2 3]
  | 3 => [R2 4; R3 0]
  | 2 => [R3 1; R3 2; R3Sign]
  | 1 => [R3 3; R3 4]
  | _ => []
  end.

(** The inverse packing: the four bytes of the wire frame that carries
    [channel] and [value], written from the frame layout of the
    specification (section 6):
<<
      byte0: 0000 CCCC      byte1: 01 CCC VVV
      byte2: 10 VVVVVV      byte3: 11 VVVVVV
>> *)
Definition encode_frame (channel value : Z) : list Z :=
  [ Z.land (Z.shiftr channel 3) 0x0F;
    Z.lor (Z.lor 0x40 (Z.shiftl (Z.land channel 0x07) 3))
          (Z.land (Z.shiftr value 12) 0x07);
    Z.lor 0x80 (Z.land (Z.shiftr value 6) 0x3F);
    Z.lor 0xC0 (Z.land value 0x3F) ].

(** An element of a [bytearray]. *)
Definition is_byte (b : Z) : Prop := 0 <= b < 256.

(** The tag-bit pattern of a frame. *)
Definition tagged (b0 b1 b2 b3 : Z) : Prop :=
  Z.land b0 0xF0 = 0x00 /\ Z.land b1 0xC0 = 0x40 /\
  Z.land b2 0xC0 = 0x80 /\ Z.land b3 0xC0 = 0xC0.

(** A whole frame of the wire: four bytes that carry the four tags. *)
Definition tagged_frame (frame : list Z) : Prop :=
  exists b0 b1 b2 b3, frame = [b0; b1; b2; b3] /\ tagged b0 b1 b2 b3.

(** [n] successive calls of [receive_packet], as the iterations of the
    communication loop make them: what each call returned, and the socket
    after the last one. *)
Fixpoint receive_packets (n : nat) (self_socket : option socket)
    : list (option (Z * Z)) * option socket :=
  match n with
  | O => ([], self_socket)
  | S n' =>
      let '(packet, sock') := receive_packet self_socket in
      let '(packets, sock'') := receive_packets n' sock' in
      (packet :: packets, sock'')
  end.

(** Resumption across calls, as the specification describes a short read:
    after a call that read fewer than 4 bytes before the stream would block,
    the next call completes the same frame from the bytes that follow. *)
Definition short_read_resumes : Prop :=
  forall (pre more : list Z) (rest : socket),
    (0 < length pre < 4)%nat -> (length pre + length more = 4)%nat ->
    forall r1 sock1,
      receive_packet (Some (Data pre :: WouldBlock :: Data more :: rest))
      = (r1, sock1) ->
      r1 = None
      /\ receive_packet sock1 = (parse_packet (pre ++ more), Some rest).

(** The four ways a read can deliver nothing: the peer has closed the stream,
    the read would block, it timed out, it failed. *)
Inductive nothing_to_read : socket -> socket -> Prop :=
| peer_closed : nothing_to_read [] []
| would_block rest : nothing_to_read (WouldBlock :: rest) rest
| timed_out rest : nothing_to_read (Timeout :: rest) rest
| transport_error rest : nothing_to_read (Fail :: rest) rest.


(** Exit of the loop, as the specification describes it: once a read returns
    zero bytes, or fails with a genuine transport error, the loop exits. *)
Definition loop_exits_on_close_or_error : Prop :=
  forall (self : AGCCommunicator) (n : nat),
    running self = true ->
    (self_socket self = Some []
     \/ exists rest, self_socket self = Some (Fail :: rest)) ->
    exists self', main_loop (S n) self = Exited self'.

(** * The retry loop of [connect] ([dsky_main.py])

    [Comm.connect] above summarises the loop by its outcome.  Here the loop
    itself is run against an oracle for the network: the list of what the
    successive connection attempts will meet. *)

Module ConnectLoop.

(** One connection attempt: the peer accepts, and the attempt leaves a
    connected socket, or [socket.error] is raised. *)
Inductive attempt :=
| Accepted (sock : socket)
| Refused.

(** [attempts < max_attempts], where [max_attempts] is
    [reconnect_max_attempts] when that is positive and [float('inf')]
    otherwise. *)
Definition below_max (reconnect_max_attempts attempts : Z) : bool :=
  if reconnect_max_attempts >? 0 then attempts <? reconnect_max_attempts
  else true.

(** What a run of [connect] leaves behind: the value returned, how many times
    it slept for [reconnect_interval], the communicator, and the part of the
    oracle it did not consume. *)
Record connect_run := mkRun {
  returned : bool;
  sleeps : nat;
  after : AGCCommunicator;
  network : list attempt
}.

(** The first statement of the [try] block: [self.socket] is bound to a new
    socket object, whatever it was bound to. *)
Definition new_socket (self : AGCCommunicator) : AGCCommunicator :=
  mkAGCCommunicator (Some unconnected) (running self) (display_state self).

(** The communicator after [k] refused attempts in a row: from the first one
    on, [self.socket] is an unconnected socket. *)
Definition after_refusals (k : nat) (self : AGCCommunicator) : AGCCommunicator :=
  match k with
  | O => self
  | S _ => new_socket self
  end.

(** The statements after the [while] loop; [self.socket] stays as the loop
    left it. *)
Definition after_loop (self : AGCCommunicator) : AGCCommunicator :=
  mkAGCCommunicator (self_socket self) (running self)
    (with_connected false (display_state self)).

(** The [while attempts < max_attempts] loop, entered with [attempts]
    failures so far.  [None]: the oracle is exhausted while the loop is still
    trying.  An accepted attempt turns the new socket into the connected one;
    a refused attempt leaves the new, unconnected socket in [self.socket],
    for the next iteration or for the statements after the loop. *)
Fixpoint connect_from (reconnect_max_attempts : Z) (net : list attempt)
    (attempts : Z) (slept : nat) (self : AGCCommunicator) : option connect_run :=
  if below_max reconnect_max_attempts attempts then
    match net with
    | [] => None
    | Accepted sock :: net' =>
        Some (mkRun true slept
                (mkAGCCommunicator (Some sock) (running self)
                   (with_connected true (display_state self)))
                net')
    | Refused :: net' =>
        let self := new_socket self in
        let attempts := attempts + 1 in
        if below_max reconnect_max_attempts attempts then
          connect_from reconnect_max_attempts net' attempts (S slept) self
        else Some (mkRun false slept (after_loop self) net')
    end
  else Some (mkRun false slept (after_loop self) net).

(** [connect] *)
Definition connect (reconnect_max_attempts : Z) (net : list attempt)
    (self : AGCCommunicator) : option connect_run :=
  connect_from reconnect_max_attempts net 0 0%nat self.

End ConnectLoop.

(** The first two bytes of a packed frame, as functions of the channel and of
    the three high bits [y] of the value. *)
Definition frame_head_ok (channel y : Z) : bool :=
  let b0 := Z.land (Z.shiftr channel 3) 15 in
  let b1 := Z.lor (Z.lor 64 (Z.shiftl (Z.land channel 7) 3)) y in
  (Z.land b0 240 =? 0) && (Z.land b1 192 =? 64)
  && (Z.lor (Z.shiftl (Z.land b0 15) 3) (Z.shiftr (Z.land b1 56) 3) =? channel)
  && (Z.land b1 7 =? y).

(** The last two bytes of a packed frame, as functions of the value. *)
Definition frame_tail_ok (value : Z) : bool :=
  let y := Z.land (Z.shiftr value 12) 7 in
  let b2 := Z.lor 128 (Z.land (Z.shiftr value 6) 63) in
  let b3 := Z.lor 192 (Z.land value 63) in
  (Z.land b2 192 =? 128) && (Z.land b3 192 =? 192)
  && (0 <=? y) && (y <? 8)
  && (Z.lor (Z.lor (Z.shiftl y 12) (Z.shiftl (Z.land b2 63) 6)) (Z.land b3 63)
      =? value).

(** A test on all the integers of [n] bits, by halving: the even ones and
    the odd ones. *)
Fixpoint all_below (n : nat) (P : Z -> bool) : bool :=
  match n with
  | O => P 0
  | S n' => all_below n' (fun x => P (2 * x)) && all_below n' (fun x => P (2 * x + 1))
  end.

(** The digit that recovery yields, stage by stage: the value itself in
    0..9, the five table entries that lie above 9 (with the later of two
    entries under one key), the last decimal digit otherwise. *)
Definition digit_of (bits : Z) : Z :=
  if (0 <=? bits) && (bits <=? 9) then bits
  else if bits =? 13 then 5
  else if bits =? 15 then 9
  else if bits =? 27 then 2
  else if bits =? 29 then 6
  else if bits =? 31 then 8
  else bits mod 10.

(** * More of the display state ([dsky_display.py]) *)

(** [set_register]: the slice [digits[:5]] is stored; the sign is stored
    unless it is [None]; a register number other than 1, 2, 3 does
    nothing. *)
Definition set_register (reg_num : Z) (digits : list Z) (sign : option string)
    (s : DisplayState) : DisplayState :=
  if reg_num =? 1 then
    let s := with_r1 (take 5 digits) s in
    match sign with Some _ => with_r1_sign sign s | None => s end
  else if reg_num =? 2 then
    let s := with_r2 (take 5 digits) s in
    match sign with Some _ => with_r2_sign sign s | None => s end
  else if reg_num =? 3 then
    let s := with_r3 (take 5 digits) s in
    match sign with Some _ => with_r3_sign sign s | None => s end
  else s.

(** The lengths the stores of [decode_channel10] need, relay code by relay
    code: the highest index written, plus one. *)
Definition lengths_suffice (relay : Z) (s : DisplayState) : bool :=
  match relay with
  | 8 => (2 <=? length (r1 s))%nat
  | 7 => (4 <=? length (r1 s))%nat
  | 6 => (5 <=? length (r1 s))%nat
  | 5 => (2 <=? length (r2 s))%nat
  | 4 => (4 <=? length (r2 s))%nat
  | 3 => (5 <=? length (r2 s))%nat && (1 <=? length (r3 s))%nat
  | 2 => (3 <=? length (r3 s))%nat
  | 1 => (5 <=? length (r3 s))%nat
  | _ => true
  end.

(** * Manual control ([dsky_simulator.py], class [DSKYSimulator]) *)

Module Simulator.

(** The key codes of pygame that [handle_keyboard] compares with; they are
    constants of the library, taken here as a parameter. *)
Record pygame_keys := mkKeys {
  K_0 : Z; K_9 : Z;
  K_F1 : Z; K_F2 : Z; K_F3 : Z; K_F4 : Z;
  K_p : Z; K_v : Z; K_n : Z; K_r : Z;
  K_PLUS : Z; K_EQUALS : Z; K_MINUS : Z;
  K_c : Z; K_e : Z;
  K_LEFT : Z; K_RIGHT : Z
}.

Record DSKYSimulator := mkSim {
  state : DisplayState;
  selected_element : string;
  selected_digit : Z
}.

(** [DSKYSimulator.__init__] *)
Definition DSKYSimulator_init (display_state : DisplayState) : DSKYSimulator :=
  mkSim display_state "prog" 0.

Inductive sim_outcome :=
| SimNormal (self : DSKYSimulator)
| SimRaise (e : exn) (self : DSKYSimulator).

(** Item assignment [l[i] = x] with an integer index: a negative index counts
    from the end; an index outside [-len, len) raises [IndexError]. *)
Definition setitem_int (l : list Z) (i : Z) (x : Z) : option (list Z) :=
  let n := Z.of_nat (length l) in
  if (0 <=? i) && (i <? n) then Some (<[Z.to_nat i := x]> l)
  else if (- n <=? i) && (i <? 0) then Some (<[Z.to_nat (n + i) := x]> l)
  else None.

(** [_get_max_digits] *)
Definition _get_max_digits (self : DSKYSimulator) : Z :=
  if String.eqb (selected_element self) "prog"
     || String.eqb (selected_element self) "verb"
     || String.eqb (selected_element self) "noun"
  then 2 else 5.

(** [_set_digit]: the store, then the advance to the next digit; when the
    store raises, the advance is not reached. *)
Definition _set_digit (digit : Z) (self : DSKYSimulator) : sim_outcome :=
  let st := state self in
  let i := selected_digit self in
  let assign (get : DisplayState -> list Z)
             (put : list Z -> DisplayState -> DisplayState) :=
    match setitem_int (get st) i digit with
    | Some l => Some (put l st)
    | None => None
    end in
  let stored :=
    if String.eqb (selected_element self) "prog" then assign prog with_prog
    else if String.eqb (selected_element self) "verb" then assign verb with_verb
    else if String.eqb (selected_element self) "noun" then assign noun with_noun
    else if String.eqb (selected_element self) "r1" then assign r1 with_r1
    else if String.eqb (selected_element self) "r2" then assign r2 with_r2
    else if String.eqb (selected_element self) "r3" then assign r3 with_r3
    else Some st in
  match stored with
  | None => SimRaise IndexError self
  | Some st' =>
      let max_digits := _get_max_digits self in
      SimNormal (mkSim st' (selected_element self)
                   ((selected_digit self + 1) mod max_digits))
  end.

(** [_set_sign] *)
Definition _set_sign (sign : string) (self : DSKYSimulator) : DSKYSimulator :=
  let st := state self in
  if String.eqb (selected_element self) "r1" then
    mkSim (with_r1_sign (Some sign) st) (selected_element self) (selected_digit self)
  else if String.eqb (selected_element self) "r2" then
    mkSim (with_r2_sign (Some sign) st) (selected_element self) (selected_digit self)
  else if String.eqb (selected_element self) "r3" then
    mkSim (with_r3_sign (Some sign) st) (selected_element self) (selected_digit self)
  else self.

(** The four test patterns; none of them writes [connected]. *)
Definition pattern (p v n a b c : list Z) (g1 g2 g3 : option string)
    (acty : bool) (st : DisplayState) : DisplayState :=
  mkDisplayState p v n a b c g1 g2 g3 acty (connected st).

Definition pattern_blank (st : DisplayState) : DisplayState :=
  pattern [0; 0] [0; 0] [0; 0] [0; 0; 0; 0; 0] [0; 0; 0; 0; 0] [0; 0; 0; 0; 0]
    None None None false st.

Definition pattern_all_eights (st : DisplayState) : DisplayState :=
  pattern [8; 8] [8; 8] [8; 8] [8; 8; 8; 8; 8] [8; 8; 8; 8; 8] [8; 8; 8; 8; 8]
    (Some "+"%string) (Some "-"%string) (Some "+"%string) true st.

Definition pattern_test (st : DisplayState) : DisplayState :=
  pattern [0; 0] [1; 6] [3; 6] [0; 0; 0; 0; 0] [0; 0; 0; 0; 0] [0; 0; 0; 0; 0]
    (Some "+"%string) (Some "+"%string) (Some "+"%string) false st.

Definition pattern_counting (st : DisplayState) : DisplayState :=
  pattern [1; 2] [3; 4] [5; 6] [1; 2; 3; 4; 5] [6; 7; 8; 9; 0] [9; 8; 7; 6; 5]
    (Some "+"%string) (Some "-"%string) None true st.

(** [handle_keyboard], on the key code of the event. *)
Definition handle_keyboard (k : pygame_keys) (key : Z) (self : DSKYSimulator)
    : sim_outcome :=
  let with_state st := mkSim st (selected_element self) (selected_digit self) in
  let select elem := mkSim (state self) elem 0 in
  if (K_0 k <=? key) && (key <=? K_9 k) then _set_digit (key - K_0 k) self
  else if key =? K_F1 k then SimNormal (with_state (pattern_blank (state self)))
  else if key =? K_F2 k then SimNormal (with_state (pattern_all_eights (state self)))
  else if key =? K_F3 k then SimNormal (with_state (pattern_test (state self)))
  else if key =? K_F4 k then SimNormal (with_state (pattern_counting (state self)))
  else if key =? K_p k then SimNormal (select "prog"%string)
  else if key =? K_v k then SimNormal (select "verb"%string)
  else if key =? K_n k then SimNormal (select "noun"%string)
  else if key =? K_r k then
    SimNormal
      (if String.eqb (selected_element self) "r1" then select "r2"%string
       else if String.eqb (selected_element self) "r2" then select "r3"%string
       else select "r1"%string)
  else if (key =? K_PLUS k) || (key =? K_EQUALS k) then
    SimNormal (_set_sign "+" self)
  else if key =? K_MINUS k then SimNormal (_set_sign "-" self)
  else if key =? K_c k then
    SimNormal (with_state (with_comp_acty (negb (comp_acty (state self))) (state self)))
  else if key =? K_e k then
    SimNormal (with_state (with_connected (negb (connected (state self))) (state self)))
  else if key =? K_LEFT k then
    SimNormal (mkSim (state self) (selected_element self)
                 ((selected_digit self - 1) mod _get_max_digits self))
  else if key =? K_RIGHT k then
    SimNormal (mkSim (state self) (selected_element self)
                 ((selected_digit self + 1) mod _get_max_digits self))
  else SimNormal self.

(** A sequence of key presses, as the display loop feeds them to
    [handle_keyboard]; an exception ends it. *)
Fixpoint handle_keys (k : pygame_keys) (keys : list Z) (self : DSKYSimulator)
    : sim_outcome :=
  match keys with
  | [] => SimNormal self
  | key :: keys' =>
      match handle_keyboard k key self with
      | SimNormal self' => handle_keys k keys' self'
      | SimRaise e self' => SimRaise e self'
      end
  end.

(** The key codes of pygame 2. *)
Definition pygame2 : pygame_keys :=
  mkKeys 48 57 1073741882 1073741883 1073741884 1073741885
         112 118 110 114 43 61 45 99 101 1073741904 1073741903.

(** The cursor of the simulator points into the selected element, and the
    display state has the constructor's shape. *)
Definition cursor_ok (self : DSKYSimulator) : Prop :=
  wf_state (state self)
  /\ 0 <= selected_digit self < _get_max_digits self.

End Simulator.

(** * Configuration defaults ([dsky_config.py]) *)

Module Config.

(** A configuration value as YAML delivers it: a dictionary, or anything
    else.  [deep_merge] only asks whether a value is a dictionary, so the
    other values are a parameter [A]. *)
#[warnings="-register-all"]
Inductive value (A : Type) :=
| Leaf (a : A)
| Dict (entries : list (string * value A)).

Arguments Leaf {A} a.
Arguments Dict {A} entries.

(** A Python dictionary: its items in insertion order, each key once. *)
Definition dict (A : Type) := list (string * value A).

(** [key in d] and [d[key]] *)
Fixpoint dict_get {A} (key : string) (d : dict A) : option (value A) :=
  match d with
  | [] => None
  | (k, v) :: rest => if String.eqb k key then Some v else dict_get key rest
  end.

(** [d[key] = v]: a key already present keeps its place; a new key goes to
    the end. *)
Fixpoint dict_set {A} (key : string) (v : value A) (d : dict A) : dict A :=
  match d with
  | [] => [(key, v)]
  | (k, w) :: rest =>
      if String.eqb k key then (k, v) :: rest else (k, w) :: dict_set key v rest
  end.

(** [deep_merge], by recursion on the override: the inner loop is the [for]
    loop over [override.items()], [result] starting as the copy of the base. *)
Fixpoint deep_merge_value {A} (override : value A) (base : dict A) : dict A :=
  match override with
  | Leaf _ => base
  | Dict items =>
      (fix loop (items : list (string * value A)) (result : dict A) : dict A :=
         match items with
         | [] => result
         | (key, v) :: items' =>
             loop items'
               match dict_get key result, v with
               | Some (Dict sub), Dict _ =>
                   dict_set key (Dict (deep_merge_value v sub)) result
               | _, _ => dict_set key v result
               end
         end) items base
  end.

Definition deep_merge {A} (base override : dict A) : dict A :=
  deep_merge_value (Dict override) base.

(** One entry of the merged dictionary, from the two entries under its key. *)
Definition merge_entry {A} (b o : option (value A)) : option (value A) :=
  match o with
  | None => b
  | Some (Dict ov) =>
      match b with
      | Some (Dict bb) => Some (Dict (deep_merge bb ov))
      | _ => o
      end
  | Some (Leaf _) => o
  end.

(** The value found by following a path of keys. *)
Fixpoint lookup_path {A} (path : list string) (v : value A) : option (value A) :=
  match path with
  | [] => Some v
  | key :: path' =>
      match v with
      | Dict d =>
          match dict_get key d with
          | Some w => lookup_path path' w
          | None => None
          end
      | Leaf _ => None
      end
  end.

(** Every dictionary inside a value has each key once. *)
Fixpoint keys_unique {A} (v : value A) : Prop :=
  match v with
  | Leaf _ => True
  | Dict d =>
      NoDup (map fst d)
      /\ (fix all (d : list (string * value A)) : Prop :=
            match d with
            | [] => True
            | (_, w) :: rest => keys_unique w /\ all rest
            end) d
  end.

(** The override says nothing about a path: it lacks one of its keys, below
    dictionaries only. *)
Fixpoint untouched {A} (path : list string) (override : dict A) : Prop :=
  match path with
  | [] => False
  | key :: path' =>
      match dict_get key override with
      | None => True
      | Some (Dict sub) => untouched path' sub
      | Some (Leaf _) => False
      end
  end.

(** The values of the configuration that are not dictionaries. *)
Inductive scalar :=
| PNone
| PBool (b : bool)
| PInt (n : Z)
| PFloat (literal : string)
| PStr (s : string).

(** The dictionary [defaults] of [apply_defaults]. *)
Definition defaults : dict scalar :=
  let int (k : string) (n : Z) := (k, Leaf (PInt n)) in
  let str (k : string) (s : string) := (k, Leaf (PStr s)) in
  let bool (k : string) (b : bool) := (k, Leaf (PBool b)) in
  let float (k : string) (s : string) := (k, Leaf (PFloat s)) in
  let sub (k : string) (d : dict scalar) := (k, Dict d) in
  [ sub "display"
      [ sub "resolution" [int "width" 480; int "height" 800];
        str "window_mode" "windowed";
        str "window_title" "Apollo DSKY Display";
        sub "colors"
          [ str "background" "#000000"; str "foreground" "#00FF00";
            str "foreground_dim" "#003300"; str "error_overlay" "#FF0000" ];
        sub "font"
          [ str "path" "fonts/DSEG7Classic-Regular.ttf";
            int "size_prog" 48; int "size_verb_noun" 48;
            int "size_register" 36; int "size_sign" 30 ];
        int "fps" 60;
        bool "simulation_mode" false ];
    sub "communication"
      [ sub "yaagc"
          [ str "host" "localhost"; int "port" 19799; int "timeout" 10;
            int "reconnect_interval" 5; int "reconnect_max_attempts" 0 ];
        float "pulse_rate" "0.05";
        bool "slow_mode" false ];
    sub "layout"
      [ sub "prog" [int "x" 190; int "y" 50; int "spacing" 10];
        sub "verb" [int "x" 100; int "y" 150; int "spacing" 10];
        sub "noun" [int "x" 280; int "y" 150; int "spacing" 10];
        sub "register_1"
          [ int "x" 80; int "y" 300; int "digit_spacing" 8;
            int "sign_x" 50; int "sign_y" 300 ];
        sub "register_2"
          [ int "x" 80; int "y" 450; int "digit_spacing" 8;
            int "sign_x" 50; int "sign_y" 450 ];
        sub "register_3"
          [ int "x" 80; int "y" 600; int "digit_spacing" 8;
            int "sign_x" 50; int "sign_y" 600 ];
        sub "comp_acty"
          [int "x" 360; int "y" 750; int "width" 100; int "height" 30] ];
    sub "error_display"
      [ bool "enabled" true; str "message" "yaAGC CONNECTION LOST";
        float "blink_rate" "1.0"; int "font_size" 36 ];
    sub "logging"
      [ bool "enabled" true; str "level" "INFO"; str "file" "dsky.log";
        bool "console" true ] ].

(** [apply_defaults], for a configuration that is a dictionary. *)
Definition apply_defaults (config : dict scalar) : dict scalar :=
  deep_merge defaults config.

End Config.

(** A configuration file that only names the host of yaAGC. *)
Definition host_only : Config.dict Config.scalar :=
  [("communication"%string,
    Config.Dict [("yaagc"%string,
                  Config.Dict [("host"%string,
                                Config.Leaf (Config.PStr "192.168.1.10"))])])].

(** * Properties *)

(** ** Finite case analysis on machine-sized integers *)

Lemma forall_range (P : Z -> bool) (lo len : Z) :
  forallb P (seqZ lo len) = true ->
  forall x, lo <= x < lo + len -> P x = true.
Proof.
  intros Hall x Hx.
  apply Is_true_true_2, forallb_True in Hall.
  rewrite Forall_forall in Hall.
  apply Is_true_true_1, Hall, elem_of_seqZ. lia.
Qed.

(** A property of bytes holds when it holds of the 256 bytes. *)
Lemma forall_byte (P : Z -> bool) :
  forallb P (seqZ 0 256) = true ->
  forall b, 0 <= b < 256 -> P b = true.
Proof. intros Hall b Hb. apply (forall_range P 0 256 Hall). lia. Qed.

(** Masking with [2^k - 1] leaves a [k]-bit value, whatever the sign. *)
Lemma land_31_range (x : Z) : 0 <= Z.land x 31 <= 31.
Proof.
  assert (E : Z.land x 31 = x mod 32) by (apply (Z.land_ones x 5); lia).
  rewrite E. pose proof (Z.mod_pos_bound x 32 ltac:(lia)). lia.
Qed.

Lemma land_1_testbit (x n : Z) :
  0 <= n -> (Z.land (Z.shiftr x n) 1 =? 0) = negb (Z.testbit x n).
Proof.
  intros Hn.
  change 1 with (Z.ones 1). rewrite Z.land_ones by lia.
  change (2 ^ 1) with 2. rewrite <- Z.bit0_mod, Z.shiftr_spec by lia.
  replace (0 + n) with n by lia.
  destruct (Z.testbit x n); reflexivity.
Qed.

(** ** Digit recovery *)

Lemma digit_not_blank_spec (r : option Z) :
  digit_not_blank r = true <-> exists d, r = Some d /\ is_digit d.
Proof.
  unfold is_digit. destruct r as [d|]; simpl; split.
  - intros H. exists d. split; [reflexivity | lia].
  - intros (d' & [= <-] & H). lia.
  - discriminate.
  - intros (d' & [=] & _).
  Qed.

Lemma seven_segment_to_digit_5bit (bits : Z) :
  0 <= bits <= 31 ->
  exists d, seven_segment_to_digit bits = Some d /\ is_digit d.
Proof.
  intros Hb. apply digit_not_blank_spec.
  apply (forall_range (fun b => digit_not_blank (seven_segment_to_digit b)) 0 32).
  - vm_compute. reflexivity.
  - lia.
Qed.

Lemma or_zero_Some (d : Z) : or_zero (Some d) = d.
Proof. unfold or_zero. destruct (Z.eqb_spec d 0); congruence. Qed.

(** The digit the dispatcher stores for a 5-bit field is the recovered one. *)
Lemma stored_digit (x : Z) :
  exists d, seven_segment_to_digit (Z.land x 31) = Some d
            /\ or_zero (seven_segment_to_digit (Z.land x 31)) = d
            /\ is_digit d.
Proof.
  destruct (seven_segment_to_digit_5bit (Z.land x 31) (land_31_range x))
    as (d & Hd & Hr).
  exists d. rewrite Hd, or_zero_Some. auto.
Qed.

(** C4: the digit-recovery function is total on 5-bit inputs: for every
    input in [0,31] it returns a digit in [0,9] or blank ([None]); no stage
    of it raises. *)
Theorem seven_segment_to_digit_total (bits : Z) :
  0 <= bits <= 31 ->
  (exists d, seven_segment_to_digit bits = Some d /\ is_digit d)
  \/ seven_segment_to_digit bits = None.
Proof.
  intros Hb.
  assert (H : digit_or_blank (seven_segment_to_digit bits) = true).
  { apply (forall_range (fun b => digit_or_blank (seven_segment_to_digit b)) 0 32);
      [vm_compute; reflexivity | lia]. }
  destruct (seven_segment_to_digit bits) as [d|]; [left | right; reflexivity].
  exists d. split; [reflexivity |]. unfold is_digit. simpl in H. lia.
Qed.

Lemma seven_segment_to_digit_total_witness :
  (exists d, seven_segment_to_digit 27 = Some d /\ is_digit d)
  \/ seven_segment_to_digit 27 = None.
Proof. apply (seven_segment_to_digit_total 27). lia. Defined.

(** ** Shape and contents of the display state *)

Lemma wf_state_init : wf_state DisplayState_init.
Proof. repeat split. Qed.

Lemma digits_ok_init : digits_ok DisplayState_init.
Proof.
  assert (H0 : is_digit 0) by (unfold is_digit; lia).
  unfold digits_ok; simpl. repeat split; repeat apply Forall_cons_2; auto.
Qed.

Section Preservation.

Variable P : DisplayState -> Prop.

Lemma and_then_preserves (o : outcome) (k : DisplayState -> outcome) :
  P (outcome_state o) ->
  (forall s, P s -> P (outcome_state (k s))) ->
  P (outcome_state (o ;;; k)).
Proof. destruct o as [s|e s]; simpl; auto. Qed.

Lemma store_preserves get put (i : nat) (x : Z) (s : DisplayState) :
  P s ->
  (i < length (get s))%nat -> P (put (<[i := x]> (get s)) s) ->
  P (outcome_state (store get put i x s)).
Proof.
  intros Hs Hlt Hput. unfold store, setitem.
  destruct (decide (i < length (get s))%nat); simpl; [assumption | lia].
Qed.

Lemma store_preserves_weak get put (i : nat) (x : Z) (s : DisplayState) :
  P s ->
  P (put (<[i := x]> (get s)) s) ->
  P (outcome_state (store get put i x s)).
Proof.
  intros Hs Hput. unfold store, setitem.
  destruct (decide (i < length (get s))%nat); simpl; assumption.
Qed.

End Preservation.

Lemma digits_ok_store_r1 (i : nat) (x : Z) (s : DisplayState) :
  is_digit x -> digits_ok s -> digits_ok (outcome_state (store r1 with_r1 i x s)).
Proof.
  intros Hx Hs. apply store_preserves_weak; [assumption |].
  unfold digits_ok in *; simpl. intuition. by apply Forall_insert.
Qed.

Lemma digits_ok_store_r2 (i : nat) (x : Z) (s : DisplayState) :
  is_digit x -> digits_ok s -> digits_ok (outcome_state (store r2 with_r2 i x s)).
Proof.
  intros Hx Hs. apply store_preserves_weak; [assumption |].
  unfold digits_ok in *; simpl. intuition. by apply Forall_insert.
Qed.

Lemma digits_ok_store_r3 (i : nat) (x : Z) (s : DisplayState) :
  is_digit x -> digits_ok s -> digits_ok (outcome_state (store r3 with_r3 i x s)).
Proof.
  intros Hx Hs. apply store_preserves_weak; [assumption |].
  unfold digits_ok in *; simpl. intuition. by apply Forall_insert.
Qed.

Lemma digits_ok_pair (a b : Z) : is_digit a -> is_digit b -> Forall is_digit [a; b].
Proof. intros Ha Hb. apply Forall_cons_2; [exact Ha |]. by apply Forall_singleton. Qed.

Lemma decode_channel10_digits_ok (value : Z) (s : DisplayState) :
  digits_ok s -> digits_ok (outcome_state (decode_channel10 value s)).
Proof.
  intros Hs. unfold decode_channel10.
  destruct (stored_digit (Z.shiftr value 5)) as (a & _ & -> & Ha).
  destruct (stored_digit value) as (b & _ & -> & Hb).
  pose proof (digits_ok_pair a b Ha Hb) as Hab.
  repeat match goal with
         | |- context [if ?c then _ else _] => destruct c
         end;
    repeat (apply and_then_preserves; [| intros ? ?]);
    first [ assumption
          | by apply digits_ok_store_r1
          | by apply digits_ok_store_r2
          | by apply digits_ok_store_r3
          | unfold digits_ok in *; simpl; intuition ].
Qed.

(** The table holds one blank entry, under the all-zeros key. *)
Lemma table_blank_key (k : Z) :
  SEVEN_SEGMENT_TO_DIGIT !! k = Some None -> k = 0.
Proof.
  unfold SEVEN_SEGMENT_TO_DIGIT, dict_display. simpl. intros H.
  repeat (apply lookup_insert_Some in H;
          destruct H as [[? ?] | [? H]]; [congruence |]).
  by apply lookup_empty_Some in H.
Qed.

(** C10: on 5-bit inputs digit recovery returns an integer in [0,9] and never
    blank: the only blank entry of the table sits under key 0, which the
    direct stage answers with digit 0.  Hence the dispatcher's [or 0] never
    replaces a blank, and decoding channel 10 keeps every digit slot of the
    display state in [0,9]. *)
Theorem digit_recovery_never_blank :
  (forall bits, 0 <= bits <= 31 ->
     exists d, seven_segment_to_digit bits = Some d /\ is_digit d)
  /\ (forall k, SEVEN_SEGMENT_TO_DIGIT !! k = Some None ->
        k = 0 /\ seven_segment_to_digit k = Some 0)
  /\ (forall value,
        let d1 := seven_segment_to_digit (Z.land (Z.shiftr value 5) 31) in
        let d2 := seven_segment_to_digit (Z.land value 31) in
        d1 = Some (or_zero d1) /\ d2 = Some (or_zero d2)
        /\ is_digit (or_zero d1) /\ is_digit (or_zero d2))
  /\ (forall value s,
        digits_ok s -> digits_ok (outcome_state (decode_channel10 value s))).
Proof.
  split; [exact seven_segment_to_digit_5bit |].
  split.
  { intros k Hk. apply table_blank_key in Hk. subst k. split; reflexivity. }
  split.
  { intros value d1 d2. subst d1 d2.
    destruct (stored_digit (Z.shiftr value 5)) as (a & Ha & -> & Hda).
    destruct (stored_digit value) as (b & Hb & -> & Hdb).
    auto. }
  exact decode_channel10_digits_ok.
Qed.

Lemma digit_recovery_never_blank_witness :
  (exists d, seven_segment_to_digit 31 = Some d /\ is_digit d)
  /\ digits_ok (outcome_state (decode_channel10 (8 * 2048 + 31 * 32 + 15) DisplayState_init)).
Proof.
  destruct digit_recovery_never_blank as (H1 & _ & _ & H4).
  split.
  - apply (H1 31). lia.
  - apply (H4 (8 * 2048 + 31 * 32 + 15) DisplayState_init). exact digits_ok_init.
Defined.

(** ** The dispatch of channel 10 *)

Lemma relay_of_range (value : Z) : 0 <= relay_of value <= 15.
Proof.
  unfold relay_of.
  assert (E : Z.land (Z.shiftr value 11) 15 = Z.shiftr value 11 mod 16)
    by (apply (Z.land_ones _ 4); lia).
  rewrite E. pose proof (Z.mod_pos_bound (Z.shiftr value 11) 16 ltac:(lia)). lia.
Qed.

Lemma sign_of_testbit (value : Z) :
  sign_of (Z.land (Z.shiftr value 10) 1) = Some (sign_string (Z.testbit value 10)).
Proof.
  unfold sign_of. rewrite land_1_testbit by lia.
  destruct (Z.testbit value 10); reflexivity.
Qed.

(** A well-formed state, its lists spelled out. *)
Lemma wf_state_inv (s : DisplayState) :
  wf_state s ->
  exists p0 p1 v0 v1 n0 n1 a0 a1 a2 a3 a4 b0 b1 b2 b3 b4 c0 c1 c2 c3 c4,
    s = mkDisplayState [p0; p1] [v0; v1] [n0; n1]
          [a0; a1; a2; a3; a4] [b0; b1; b2; b3; b4] [c0; c1; c2; c3; c4]
          (r1_sign s) (r2_sign s) (r3_sign s) (comp_acty s) (connected s).
Proof.
  destruct s as [p v n a b c ? ? ? ? ?].
  unfold wf_state; simpl. intros (Hp & Hv & Hn & Ha & Hb & Hc).
  destruct p as [|p0 [|p1 [|]]]; try discriminate Hp.
  destruct v as [|v0 [|v1 [|]]]; try discriminate Hv.
  destruct n as [|n0 [|n1 [|]]]; try discriminate Hn.
  destruct a as [|a0 [|a1 [|a2 [|a3 [|a4 [|]]]]]]; try discriminate Ha.
  destruct b as [|b0 [|b1 [|b2 [|b3 [|b4 [|]]]]]]; try discriminate Hb.
  destruct c as [|c0 [|c1 [|c2 [|c3 [|c4 [|]]]]]]; try discriminate Hc.
  repeat eexists.
Qed.

(** On a well-formed state [decode_channel10] raises nothing and does what
    the table says, with the digits [d or 0] of the two 5-bit fields. *)
Lemma decode_channel10_table (value : Z) (s : DisplayState) :
  wf_state s ->
  decode_channel10 value s =
  Normal (table_effect (relay_of value) (Z.testbit value 10)
            (or_zero (seven_segment_to_digit (digit1_of value)))
            (or_zero (seven_segment_to_digit (digit2_of value))) s).
Proof.
  intros Hwf.
  destruct (wf_state_inv s Hwf)
    as (p0 & p1 & v0 & v1 & n0 & n1 & a0 & a1 & a2 & a3 & a4
        & b0 & b1 & b2 & b3 & b4 & c0 & c1 & c2 & c3 & c4 & ->).
  unfold decode_channel10, digit1_of, digit2_of.
  rewrite sign_of_testbit.
  generalize (or_zero (seven_segment_to_digit (Z.land (Z.shiftr value 5) 31))).
  generalize (or_zero (seven_segment_to_digit (Z.land value 31))).
  generalize (Z.testbit value 10).
  pose proof (relay_of_range value) as Hr. unfold relay_of in *.
  generalize dependent (Z.land (Z.shiftr value 11) 15).
  intros r Hr neg d2 d1.
  assert (Hcases : r = 0 \/ r = 1 \/ r = 2 \/ r = 3 \/ r = 4 \/ r = 5 \/ r = 6
                   \/ r = 7 \/ r = 8 \/ r = 9 \/ r = 10 \/ r = 11 \/ r = 12
                   \/ r = 13 \/ r = 14 \/ r = 15) by lia.
  repeat (destruct Hcases as [-> | Hcases]; [reflexivity |]).
  subst r. reflexivity.
Qed.

(** C5: for a channel-10 value with relay code 7, decoding stores the digit
    recovered from bits 5-9 in r1[2], the digit recovered from bits 0-4 in
    r1[3], and sets r1_sign to '-' when bit 10 is set and to '+' when it is
    clear. *)
Theorem decode_channel10_relay7 (value : Z) (s : DisplayState) :
  wf_state s ->
  Z.land (Z.shiftr value 11) 15 = 7 ->
  exists s',
    decode_channel10 value s = Normal s'
    /\ Some (r1 s' !!! 2%nat) = seven_segment_to_digit (Z.land (Z.shiftr value 5) 31)
    /\ Some (r1 s' !!! 3%nat) = seven_segment_to_digit (Z.land value 31)
    /\ r1_sign s' = Some (if Z.testbit value 10 then "-" else "+")%string.
Proof.
  intros Hwf Hrelay. eexists. split; [apply (decode_channel10_table _ _ Hwf) |].
  unfold relay_of, digit1_of, digit2_of. rewrite Hrelay.
  destruct (stored_digit (Z.shiftr value 5)) as (a & -> & -> & _).
  destruct (stored_digit value) as (b & -> & -> & _).
  destruct (wf_state_inv s Hwf)
    as (p0 & p1 & v0 & v1 & n0 & n1 & a0 & a1 & a2 & a3 & a4
        & b0 & b1 & b2 & b3 & b4 & c0 & c1 & c2 & c3 & c4 & ->).
  repeat split.
Qed.

(** Relay 7, sign bit 1, digit fields 3 and 4, on the initial state. *)
Lemma decode_channel10_relay7_witness :
  exists s',
    decode_channel10 15460 DisplayState_init = Normal s'
    /\ Some (r1 s' !!! 2%nat) = Some 3
    /\ Some (r1 s' !!! 3%nat) = Some 4
    /\ r1_sign s' = Some "-"%string.
Proof.
  exact (decode_channel10_relay7 15460 DisplayState_init
           wf_state_init eq_refl).
Defined.

(** C8: an event on a channel other than the two handled ones (octal 10 and
    octal 11, that is 8 and 9) raises nothing and leaves the display state as
    it was, and so does a channel-10 value whose relay code is outside 1-12,
    decoded directly or through [process_packet]. *)
Theorem unhandled_event_is_noop (channel value : Z) (s : DisplayState) :
  (channel <> 8 -> channel <> 9 -> process_packet channel value s = Normal s)
  /\ (~ 1 <= relay_of value <= 12 ->
      decode_channel10 value s = Normal s
      /\ process_packet 8 value s = Normal s).
Proof.
  split.
  - intros H8 H9. unfold process_packet.
    destruct (Z.eqb_spec channel 8); [contradiction |].
    destruct (Z.eqb_spec channel 9); [contradiction |].
    destruct (channel =? 11), (channel =? 115); reflexivity.
  - intros Hr.
    assert (H : decode_channel10 value s = Normal s).
    { pose proof (relay_of_range value) as Hrange.
      unfold decode_channel10. unfold relay_of in *.
      generalize dependent (Z.land (Z.shiftr value 11) 15). intros r Hr Hrange.
      assert (Hcases : r = 0 \/ r = 13 \/ r = 14 \/ r = 15) by lia.
      destruct Hcases as [-> | [-> | [-> | ->]]]; reflexivity. }
    split; [exact H | exact H].
Qed.

Lemma unhandled_event_is_noop_witness :
  process_packet 115 15460 DisplayState_init = Normal DisplayState_init
  /\ decode_channel10 (13 * 2048 + 100) DisplayState_init = Normal DisplayState_init
  /\ process_packet 8 (13 * 2048 + 100) DisplayState_init = Normal DisplayState_init.
Proof.
  destruct (unhandled_event_is_noop 115 (13 * 2048 + 100) DisplayState_init)
    as [H1 H2].
  split.
  - destruct (unhandled_event_is_noop 115 15460 DisplayState_init) as [H _].
    apply H; lia.
  - apply H2. vm_compute. intros [_ H]. apply H. reflexivity.
Defined.

(** ** Frame properties of the dispatch *)

Ltac listed_or_same H :=
  first [ reflexivity
        | exfalso; apply H; repeat constructor ].

Lemma table_effect_frame (r : Z) (neg : bool) (d1 d2 : Z) (s : DisplayState) (f : field) :
  wf_state s -> 1 <= r <= 12 ->
  f ∉ table_fields r ->
  get_field f (table_effect r neg d1 d2 s) = get_field f s.
Proof.
  intros Hwf Hr Hf.
  destruct (wf_state_inv s Hwf)
    as (p0 & p1 & v0 & v1 & n0 & n1 & a0 & a1 & a2 & a3 & a4
        & b0 & b1 & b2 & b3 & b4 & c0 & c1 & c2 & c3 & c4 & ->).
  assert (Hcases : r = 1 \/ r = 2 \/ r = 3 \/ r = 4 \/ r = 5 \/ r = 6
                   \/ r = 7 \/ r = 8 \/ r = 9 \/ r = 10 \/ r = 11 \/ r = 12) by lia.
  repeat (destruct Hcases as [-> | Hcases];
          [ destruct f as [i|i|i|i|i|i| | | | | ];
            try destruct i as [|[|[|[|[|i]]]]];
            listed_or_same Hf |]).
  subst r. reflexivity.
Qed.

Lemma table_effect_wf (r : Z) (neg : bool) (d1 d2 : Z) (s : DisplayState) :
  wf_state s -> wf_state (table_effect r neg d1 d2 s).
Proof.
  intros Hwf.
  destruct (wf_state_inv s Hwf)
    as (p0 & p1 & v0 & v1 & n0 & n1 & a0 & a1 & a2 & a3 & a4
        & b0 & b1 & b2 & b3 & b4 & c0 & c1 & c2 & c3 & c4 & ->).
  unfold table_effect.
  repeat match goal with
         | |- context [match ?x with _ => _ end] => destruct x
         end; repeat split.
Qed.

(** C9: channel-10 decoding is a partial update.  For a relay code in 1-12
    the decoder raises nothing and performs the update of the dispatch table;
    every slot of the display state that the table does not list for that
    relay code (the other digits, the other signs, comp_acty, connected)
    keeps its value, the digit lists keep their lengths, and relay 12 leaves
    the state as it was. *)
Theorem decode_channel10_partial_update (value : Z) (s : DisplayState) :
  wf_state s ->
  1 <= relay_of value <= 12 ->
  exists s',
    decode_channel10 value s = Normal s'
    /\ s' = table_effect (relay_of value) (Z.testbit value 10)
              (or_zero (seven_segment_to_digit (digit1_of value)))
              (or_zero (seven_segment_to_digit (digit2_of value))) s
    /\ (forall f, f ∉ table_fields (relay_of value) ->
                  get_field f s' = get_field f s)
    /\ wf_state s'
    /\ (relay_of value = 12 -> s' = s).
Proof.
  intros Hwf Hr. eexists.
  split; [apply (decode_channel10_table _ _ Hwf) |].
  split; [reflexivity |].
  split; [intros f Hf; by apply table_effect_frame |].
  split; [by apply table_effect_wf |].
  intros ->. reflexivity.
Qed.

(** Relay 8 on the initial state: only r1[0] and r1[1] are written. *)
Lemma decode_channel10_partial_update_witness :
  exists s',
    decode_channel10 (8 * 2048 + 1 * 32 + 2) DisplayState_init = Normal s'
    /\ r1 s' = [1; 2; 0; 0; 0]
    /\ get_field (R1 2) s' = get_field (R1 2) DisplayState_init
    /\ get_field R1Sign s' = get_field R1Sign DisplayState_init
    /\ get_field Connected s' = get_field Connected DisplayState_init.
Proof.
  destruct (decode_channel10_partial_update (8 * 2048 + 1 * 32 + 2)
              DisplayState_init wf_state_init)
    as (s' & Hdec & Hs' & Hframe & _ & _).
  - vm_compute. split; discriminate.
  - exists s'. split; [exact Hdec |].
    split; [rewrite Hs'; reflexivity |].
    assert (Hnot : forall f, f ∉ table_fields 8 -> get_field f s' = get_field f DisplayState_init)
      by exact Hframe.
    repeat split; apply Hnot; simpl; intros Hin;
      repeat (apply elem_of_cons in Hin; destruct Hin as [Hin | Hin]; [discriminate Hin |]);
      by apply elem_of_nil in Hin.
Defined.

(** ** The connectivity flag *)

(** C6, as stated: a fresh display state has [connected] false.  The
    constructor sets it to [True]. *)
Lemma connected_initially_false_fails :
  ~ (connected DisplayState_init = false).
Proof. simpl. discriminate. Qed.

(** C6, amended: at creation time the communicator holds no socket and is not
    running, and the [connected] flag of the display state is true, its
    initial value; the flag becomes false when [connect] gives up and when
    [disconnect] or [stop] runs, and true when [connect] succeeds. *)
Theorem connected_initially_true :
  connected DisplayState_init = true
  /\ self_socket (AGCCommunicator_init DisplayState_init) = None
  /\ running (AGCCommunicator_init DisplayState_init) = false
  /\ connected (display_state (AGCCommunicator_init DisplayState_init)) = true
  /\ (forall self, connected (display_state (connect None self).2) = false)
  /\ (forall sock self, connected (display_state (connect (Some sock) self).2) = true)
  /\ (forall self, connected (display_state (disconnect self)) = false)
  /\ (forall self, connected (display_state (stop self)) = false).
Proof. repeat split. Qed.

(** ** Channel 11 *)

(** C7, as stated, with the channel number read as the integer 11: the event
    (11, 2) has bit 1 of its value set and leaves [comp_acty] false, because
    11 is octal 13, a reserved channel. *)
Lemma channel_eleven_decimal_fails :
  ~ (forall value s,
       exists s', process_packet 11 value s = Normal s'
                  /\ comp_acty s' = Z.testbit value 1).
Proof.
  intros H. destruct (H 2 DisplayState_init) as (s' & Hp & Hc).
  injection Hp as <-. discriminate Hc.
Qed.

(** C7, amended: for every event whose channel number is octal 11 (the
    integer 9), processing it raises nothing and sets [comp_acty] to bit 1 of
    the value, true exactly when the bit is set; no other field of the
    display state changes. *)
Theorem process_packet_channel_0o11 (value : Z) (s : DisplayState) :
  process_packet 9 value s = Normal (with_comp_acty (Z.testbit value 1) s)
  /\ decode_channel11 value s = Normal (with_comp_acty (Z.testbit value 1) s)
  /\ forall f, f <> CompActy ->
       get_field f (with_comp_acty (Z.testbit value 1) s) = get_field f s.
Proof.
  assert (H : decode_channel11 value s
              = Normal (with_comp_acty (Z.testbit value 1) s)).
  { unfold decode_channel11. rewrite land_1_testbit by lia.
    rewrite negb_involutive. reflexivity. }
  split; [exact H |]. split; [exact H |].
  intros f Hf. destruct f; try reflexivity. contradiction.
Qed.

Lemma process_packet_channel_0o11_witness :
  process_packet 9 2 DisplayState_init = Normal (with_comp_acty true DisplayState_init)
  /\ get_field R1Sign (with_comp_acty true DisplayState_init)
     = get_field R1Sign DisplayState_init.
Proof.
  destruct (process_packet_channel_0o11 2 DisplayState_init) as (H1 & _ & H3).
  split; [exact H1 |]. apply (H3 R1Sign). discriminate.
Defined.

(** ** The wire frame *)

(** What each byte of a frame contributes to each byte of the re-encoded
    frame; every fact is checked on the 256 bytes. *)
Section ByteFacts.

Variable b : Z.
Hypothesis Hb : is_byte b.

Ltac check_bytes P :=
  let H := fresh "H" in
  pose proof (forall_byte P ltac:(vm_compute; reflexivity) b Hb) as H;
  cbv beta in H;
  repeat match type of H with
         | context [Z.land b ?m =? ?t] =>
             match goal with
             | Ht : Z.land b m = t |- _ => rewrite Ht, Z.eqb_refl in H
             end
         end;
  cbn [implb] in H;
  repeat (apply andb_true_iff in H; destruct H as [H ?]);
  repeat match goal with
         | E : (_ =? _) = true |- _ => apply Z.eqb_eq in E
         end;
  auto.

Lemma byte0_facts :
  Z.land b 0xF0 = 0x00 ->
  Z.land (Z.shiftr (Z.shiftl (Z.land b 15) 3) 3) 15 = b
  /\ Z.land (Z.shiftl (Z.land b 15) 3) 7 = 0.
Proof.
  intros Ht.
  check_bytes (fun b =>
    implb (Z.land b 0xF0 =? 0x00)
      ((Z.land (Z.shiftr (Z.shiftl (Z.land b 15) 3) 3) 15 =? b)
       && (Z.land (Z.shiftl (Z.land b 15) 3) 7 =? 0))).
Qed.

Lemma byte1_facts :
  Z.land b 0xC0 = 0x40 ->
  Z.land (Z.shiftr (Z.shiftr (Z.land b 56) 3) 3) 15 = 0
  /\ Z.lor (Z.lor 64 (Z.shiftl (Z.land (Z.shiftr (Z.land b 56) 3) 7) 3))
           (Z.land (Z.shiftr (Z.shiftl (Z.land b 7) 12) 12) 7) = b
  /\ Z.land (Z.shiftr (Z.shiftl (Z.land b 7) 12) 6) 63 = 0
  /\ Z.land (Z.shiftl (Z.land b 7) 12) 63 = 0.
Proof.
  intros Ht.
  check_bytes (fun b =>
    implb (Z.land b 0xC0 =? 0x40)
      ((Z.land (Z.shiftr (Z.shiftr (Z.land b 56) 3) 3) 15 =? 0)
       && (Z.lor (Z.lor 64 (Z.shiftl (Z.land (Z.shiftr (Z.land b 56) 3) 7) 3))
             (Z.land (Z.shiftr (Z.shiftl (Z.land b 7) 12) 12) 7) =? b)
       && (Z.land (Z.shiftr (Z.shiftl (Z.land b 7) 12) 6) 63 =? 0)
       && (Z.land (Z.shiftl (Z.land b 7) 12) 63 =? 0))).
Qed.

Lemma byte2_facts :
  Z.land b 0xC0 = 0x80 ->
  Z.land (Z.shiftr (Z.shiftl (Z.land b 63) 6) 12) 7 = 0
  /\ Z.lor 128 (Z.land (Z.shiftr (Z.shiftl (Z.land b 63) 6) 6) 63) = b
  /\ Z.land (Z.shiftl (Z.land b 63) 6) 63 = 0.
Proof.
  intros Ht.
  check_bytes (fun b =>
    implb (Z.land b 0xC0 =? 0x80)
      ((Z.land (Z.shiftr (Z.shiftl (Z.land b 63) 6) 12) 7 =? 0)
       && (Z.lor 128 (Z.land (Z.shiftr (Z.shiftl (Z.land b 63) 6) 6) 63) =? b)
       && (Z.land (Z.shiftl (Z.land b 63) 6) 63 =? 0))).
Qed.

Lemma byte3_facts :
  Z.land b 0xC0 = 0xC0 ->
  Z.land (Z.shiftr (Z.land b 63) 12) 7 = 0
  /\ Z.land (Z.shiftr (Z.land b 63) 6) 63 = 0
  /\ Z.lor 192 (Z.land (Z.land b 63) 63) = b.
Proof.
  intros Ht.
  check_bytes (fun b =>
    implb (Z.land b 0xC0 =? 0xC0)
      ((Z.land (Z.shiftr (Z.land b 63) 12) 7 =? 0)
       && (Z.land (Z.shiftr (Z.land b 63) 6) 63 =? 0)
       && (Z.lor 192 (Z.land (Z.land b 63) 63) =? b))).
Qed.

End ByteFacts.

(** C1: a 4-byte sequence that carries the tag-bit pattern is decoded to a
    pair (channel, value), the channel being byte 0's low nibble above three
    bits of byte 1 and the value three bits of byte 1 above six bits of byte
    2 above six bits of byte 3; packing that pair again gives the four bytes
    back.  The same pair is what [receive_packet] returns when the four bytes
    are the next ones on the stream. *)
Theorem parse_packet_roundtrip (b0 b1 b2 b3 : Z) :
  is_byte b0 -> is_byte b1 -> is_byte b2 -> is_byte b3 ->
  tagged b0 b1 b2 b3 ->
  exists channel value,
    parse_packet [b0; b1; b2; b3] = Some (channel, value)
    /\ channel = Z.lor (Z.shiftl (Z.land b0 0x0F) 3) (Z.shiftr (Z.land b1 0x38) 3)
    /\ value = Z.lor (Z.lor (Z.shiftl (Z.land b1 0x07) 12)
                            (Z.shiftl (Z.land b2 0x3F) 6))
                     (Z.land b3 0x3F)
    /\ encode_frame channel value = [b0; b1; b2; b3]
    /\ forall rest,
         receive_packet (Some (Data [b0; b1; b2; b3] :: rest))
         = (Some (channel, value), Some rest).
Proof.
  intros H0 H1 H2 H3 (T0 & T1 & T2 & T3).
  assert (Hparse : parse_packet [b0; b1; b2; b3]
                   = Some (Z.lor (Z.shiftl (Z.land b0 15) 3) (Z.shiftr (Z.land b1 56) 3),
                           Z.lor (Z.lor (Z.shiftl (Z.land b1 7) 12)
                                        (Z.shiftl (Z.land b2 63) 6))
                                 (Z.land b3 63))).
  { unfold parse_packet. cbn [lookup_total list_lookup_total].
    rewrite T0, T1, T2, T3. reflexivity. }
  do 2 eexists. split; [exact Hparse |].
  split; [reflexivity |]. split; [reflexivity |].
  split.
  - unfold encode_frame.
    rewrite ?Z.shiftr_lor, ?Z.land_lor_distr_l.
    destruct (byte0_facts b0 H0 T0) as (A0 & A1).
    destruct (byte1_facts b1 H1 T1) as (B0 & B1 & B2 & B3).
    destruct (byte2_facts b2 H2 T2) as (C0 & C1 & C2).
    destruct (byte3_facts b3 H3 T3) as (D0 & D1 & D2).
    rewrite A0, A1, B0, B2, B3, C0, C2, D0, D1.
    rewrite ?Z.lor_0_l, ?Z.lor_0_r.
    rewrite B1, C1, D2. reflexivity.
  - intros rest. unfold receive_packet. cbn. exact (f_equal (fun p => (p, Some rest)) Hparse).
Qed.

(** The frame of relay 11 with digits 1 and 6 on channel octal 10. *)
Lemma parse_packet_roundtrip_witness :
  exists channel value,
    parse_packet [1; 69; 160; 230] = Some (channel, value)
    /\ encode_frame channel value = [1; 69; 160; 230].
Proof.
  destruct (parse_packet_roundtrip 1 69 160 230) as (c & v & Hp & _ & _ & He & _).
  - unfold is_byte; lia.
  - unfold is_byte; lia.
  - unfold is_byte; lia.
  - unfold is_byte; lia.
  - repeat split.
  - exists c, v. split; assumption.
Defined.

(** ** Reading a packet *)

(** The fuel given to [read_loop] is never the reason it stops. *)
Lemma read_loop_fuel (fuel : nat) :
  forall (buf : list Z) (left_to_read : nat) (sock : socket),
    (left_to_read <= fuel)%nat ->
    (read_loop fuel buf left_to_read sock).1 <> ReadFuel.
Proof.
  induction fuel as [|fuel IH]; intros buf left sock Hle.
  - assert (left = 0%nat) as -> by lia. simpl. discriminate.
  - destruct left as [|left]; [simpl; discriminate |].
    cbn [read_loop].
    destruct (recv_into (S left) sock) as [[bs| | |] sock']; try (simpl; discriminate).
    destruct (Nat.eqb_spec (length bs) 0) as [E | E]; [simpl; discriminate |].
    apply IH. lia.
Qed.

(** Chunks that together hold fewer bytes than are still missing, followed by
    an empty receive queue: the loop reads every chunk, then [recv_into]
    raises [BlockingIOError] and the call returns [None].  What is left of the
    stream starts after the bytes that were read. *)
Lemma read_loop_blocks (chunks : list (list Z)) :
  forall (fuel : nat) (buf : list Z) (left_to_read : nat) (rest : socket),
    Forall (fun c => c <> []) chunks ->
    (length (concat chunks) < left_to_read)%nat ->
    (left_to_read <= fuel)%nat ->
    read_loop fuel buf left_to_read (map Data chunks ++ WouldBlock :: rest)
    = (ReadNone, rest).
Proof.
  induction chunks as [|c cs IH]; intros fuel buf left rest Hne Hlen Hfuel.
  - destruct left as [|left]; [simpl in Hlen; lia |].
    destruct fuel as [|fuel]; [lia |]. reflexivity.
  - apply Forall_cons in Hne as [Hc Hcs].
    simpl in Hlen. rewrite length_app in Hlen.
    destruct left as [|left]; [lia |].
    destruct fuel as [|fuel]; [lia |].
    cbn [read_loop map app recv_into].
    rewrite take_ge, drop_ge by lia.
    destruct (Nat.eqb_spec (length c) 0) as [E | E].
    { destruct c; [contradiction | discriminate E]. }
    apply IH; [assumption | lia | lia].
Qed.

Lemma parse_packet_tagged (b0 b1 b2 b3 : Z) :
  tagged b0 b1 b2 b3 ->
  parse_packet [b0; b1; b2; b3]
  = Some (Z.lor (Z.shiftl (Z.land b0 15) 3) (Z.shiftr (Z.land b1 56) 3),
          Z.lor (Z.lor (Z.shiftl (Z.land b1 7) 12) (Z.shiftl (Z.land b2 63) 6))
                (Z.land b3 63)).
Proof.
  intros (T0 & T1 & T2 & T3).
  unfold parse_packet. cbn [lookup_total list_lookup_total].
  rewrite T0, T1, T2, T3. reflexivity.
Qed.

Lemma parse_packet_untagged (b0 b1 b2 b3 : Z) :
  ~ tagged b0 b1 b2 b3 -> parse_packet [b0; b1; b2; b3] = None.
Proof.
  intros Hnot. unfold parse_packet. cbn [lookup_total list_lookup_total].
  destruct (Z.eqb_spec (Z.land b0 240) 0) as [T0|]; [| reflexivity].
  destruct (Z.eqb_spec (Z.land b1 192) 64) as [T1|]; [| reflexivity].
  destruct (Z.eqb_spec (Z.land b2 192) 128) as [T2|]; [| reflexivity].
  destruct (Z.eqb_spec (Z.land b3 192) 192) as [T3|]; [| reflexivity].
  exfalso. apply Hnot. repeat split; assumption.
Qed.

(** Successive reads fill the buffer from left to right. *)
Lemma write_at_app (bs1 : list Z) :
  forall (buf : list Z) (pos : nat) (bs2 : list Z),
    write_at buf pos (bs1 ++ bs2)
    = write_at (write_at buf pos bs1) (pos + length bs1) bs2.
Proof.
  induction bs1 as [|b bs1 IH]; intros buf pos bs2; simpl.
  - rewrite Nat.add_0_r. reflexivity.
  - rewrite IH. f_equal. lia.
Qed.

Lemma write_at_whole (frame : list Z) :
  length frame = packet_size ->
  write_at (replicate packet_size 0) 0 frame = frame.
Proof.
  destruct frame as [|f0 [|f1 [|f2 [|f3 [|f4 frame]]]]]; intros H;
    try discriminate H.
  reflexivity.
Qed.

(** Chunks that together hold exactly the bytes still missing, however they
    are cut: the loop reads them one after the other, stores each where the
    one before ended, and takes from the last chunk no more than is missing. *)
Lemma read_loop_chunks (chunks : list (list Z)) :
  forall (fuel : nat) (buf : list Z) (left_to_read : nat)
         (last extra : list Z) (rest : socket),
    Forall (fun c => c <> []) chunks -> last <> [] ->
    (length (concat chunks) + length last = left_to_read)%nat ->
    (left_to_read <= packet_size)%nat ->
    (left_to_read <= fuel)%nat ->
    read_loop fuel buf left_to_read
      (map Data chunks ++ Data (last ++ extra) :: rest)
    = (ReadFull (write_at buf (packet_size - left_to_read) (concat chunks ++ last)),
       match extra with [] => rest | _ => Data extra :: rest end).
Proof.
  induction chunks as [|c cs IH];
    intros fuel buf left last extra rest Hne Hlast Hlen Hps Hfuel.
  - simpl in Hlen.
    destruct left as [|left]; [destruct last; [contradiction | discriminate] |].
    destruct fuel as [|fuel]; [lia |].
    cbn [read_loop map app concat recv_into].
    rewrite (take_app_length' last extra (S left)) by lia.
    rewrite (drop_app_length' last extra (S left)) by lia.
    destruct (Nat.eqb_spec (length last) 0) as [E | E]; [lia |].
    replace (S left - length last)%nat with 0%nat by lia.
    destruct fuel, extra; reflexivity.
  - apply Forall_cons in Hne as [Hc Hcs].
    simpl in Hlen. rewrite length_app in Hlen.
    assert (Hc' : (0 < length c)%nat) by (destruct c; [contradiction | simpl; lia]).
    destruct left as [|left]; [lia |].
    destruct fuel as [|fuel]; [lia |].
    cbn [read_loop map app concat recv_into].
    rewrite take_ge, drop_ge by lia.
    destruct (Nat.eqb_spec (length c) 0) as [E | E]; [lia |].
    rewrite (IH fuel _ (S left - length c)%nat last extra rest Hcs Hlast)
      by lia.
    rewrite <- app_assoc, (write_at_app c buf _ (concat cs ++ last)).
    replace (packet_size - (S left - length c))%nat
      with (packet_size - S left + length c)%nat by lia.
    reflexivity.
Qed.

(** A whole frame at the head of the queue is read by one call. *)
Lemma receive_packet_whole (frame : list Z) (rest : socket) :
  length frame = packet_size ->
  receive_packet (Some (Data frame :: rest)) = (parse_packet frame, Some rest).
Proof.
  destruct frame as [|f0 [|f1 [|f2 [|f3 [|f4 frame]]]]]; intros H;
    try discriminate H.
  reflexivity.
Qed.

(** No byte of a frame but the first passes the check made on byte 0. *)
Lemma land_240_192 (b : Z) : Z.land b 240 = 0 -> Z.land b 192 = 0.
Proof.
  intros H. change 192 with (Z.land 240 192).
  rewrite Z.land_assoc, H. reflexivity.
Qed.

(** A call that starts [p] bytes into a frame, with [p] from 1 to 3, returns
    nothing and leaves the next call [p] bytes into the next frame. *)
Lemma receive_packet_misaligned (frame next : list Z) (p : nat) (rest : socket) :
  tagged_frame frame -> length next = packet_size -> (1 <= p <= 3)%nat ->
  receive_packet (Some (Data (drop p frame) :: Data next :: rest))
  = (None, Some (Data (drop p next) :: rest)).
Proof.
  intros (b0 & b1 & b2 & b3 & -> & (T0 & T1 & T2 & T3)) Hnext Hp.
  destruct next as [|n0 [|n1 [|n2 [|n3 [|n4 next]]]]]; try discriminate Hnext.
  assert (Hcases : p = 1%nat \/ p = 2%nat \/ p = 3%nat) by lia.
  destruct Hcases as [-> | [-> | ->]].
  - change (receive_packet (Some (Data (drop 1 [b0; b1; b2; b3])
                                   :: Data [n0; n1; n2; n3] :: rest)))
      with (parse_packet [b1; b2; b3; n0], Some (Data [n1; n2; n3] :: rest)).
    rewrite parse_packet_untagged; [reflexivity |].
    intros (H & _). apply land_240_192 in H. rewrite T1 in H. discriminate H.
  - change (receive_packet (Some (Data (drop 2 [b0; b1; b2; b3])
                                   :: Data [n0; n1; n2; n3] :: rest)))
      with (parse_packet [b2; b3; n0; n1], Some (Data [n2; n3] :: rest)).
    rewrite parse_packet_untagged; [reflexivity |].
    intros (H & _). apply land_240_192 in H. rewrite T2 in H. discriminate H.
  - change (receive_packet (Some (Data (drop 3 [b0; b1; b2; b3])
                                   :: Data [n0; n1; n2; n3] :: rest)))
      with (parse_packet [b3; n0; n1; n2], Some (Data [n3] :: rest)).
    rewrite parse_packet_untagged; [reflexivity |].
    intros (H & _). apply land_240_192 in H. rewrite T3 in H. discriminate H.
Qed.

Lemma tagged_frame_length (frame : list Z) :
  tagged_frame frame -> length frame = packet_size.
Proof. intros (b0 & b1 & b2 & b3 & -> & _). reflexivity. Qed.

Lemma last_cons_default {A} (l : list A) :
  forall a d : A, List.last (a :: l) d = List.last l a.
Proof.
  induction l as [|b l IH]; intros a d; [reflexivity |].
  change (List.last (a :: b :: l) d) with (List.last (b :: l) d).
  rewrite (IH b d), (IH b a). reflexivity.
Qed.

(** Once a call starts inside a frame, every call does: frame after frame is
    read across its boundary and dropped. *)
Lemma receive_packets_misaligned (frames : list (list Z)) :
  forall (frame : list Z) (p : nat) (rest : socket),
    tagged_frame frame -> (1 <= p <= 3)%nat -> Forall tagged_frame frames ->
    receive_packets (length frames)
      (Some (Data (drop p frame) :: map Data frames ++ rest))
    = (replicate (length frames) None,
       Some (Data (drop p (List.last frames frame)) :: rest)).
Proof.
  induction frames as [|next frames IH]; intros frame p rest Hf Hp Hfs.
  - reflexivity.
  - apply Forall_cons in Hfs as [Hnext Hfs].
    cbn [length receive_packets map app].
    rewrite (receive_packet_misaligned frame next p _ Hf
               (tagged_frame_length _ Hnext) Hp).
    cbv beta iota.
    pose proof (IH next p rest Hnext Hp Hfs) as E.
    change (@Some socket) with (@Some (list event)) in *.
    rewrite E, last_cons_default. reflexivity.
Qed.

(** Frames that arrive whole are read one per call. *)
Lemma receive_packets_aligned (frames : list (list Z)) :
  forall rest : socket,
    Forall tagged_frame frames ->
    receive_packets (length frames) (Some (map Data frames ++ rest))
    = (map parse_packet frames, Some rest).
Proof.
  induction frames as [|frame frames IH]; intros rest Hfs.
  - reflexivity.
  - apply Forall_cons in Hfs as [Hf Hfs].
    cbn [length receive_packets map app].
    rewrite (receive_packet_whole frame _ (tagged_frame_length _ Hf)).
    cbv beta iota.
    pose proof (IH rest Hfs) as E.
    change (@Some socket) with (@Some (list event)) in *.
    rewrite E. reflexivity.
Qed.

(** C2, as stated, fails: the frame [1; 69; 160; 230] (channel octal 10,
    relay 11, digits 1 and 6) arrives in two halves with a moment of empty
    queue in between, and the second call does not return its event. *)
Lemma short_read_resumes_fails : ~ short_read_resumes.
Proof.
  intros H.
  destruct (H [1; 69] [160; 230] [] ltac:(simpl; lia) eq_refl _ _ eq_refl)
    as [_ H2].
  vm_compute in H2. discriminate H2.
Qed.

(** C2: what [receive_packet] does with a short read.  Within one call the
    [while] loop does resume: however the four bytes of a frame are cut into
    reads, each read asks for the bytes still missing only and stores them
    where the read before ended, and the call returns the parse of the whole
    frame.  Across calls it does not: when the queue is empty before the
    fourth byte, the call returns nothing and the bytes it had read are gone
    with its local buffer; the next call starts a fresh 4-byte read at the
    byte that follows them.  So after a frame has been split by a moment of
    empty queue, that frame is lost, and so is every frame after it: each
    later call reads across a frame boundary, finds a byte that is not a
    first byte in its position 0, and returns nothing, where the same frames
    arriving whole give one event per call. *)
Theorem receive_packet_short_read :
  (forall (chunks : list (list Z)) (last extra : list Z) (rest : socket),
     Forall (fun c => c <> []) chunks -> last <> [] ->
     (length (concat chunks) + length last = 4)%nat ->
     receive_packet (Some (map Data chunks ++ Data (last ++ extra) :: rest))
     = (parse_packet (concat chunks ++ last),
        Some match extra with [] => rest | _ => Data extra :: rest end))
  /\ (forall (chunks : list (list Z)) (rest : socket),
        Forall (fun c => c <> []) chunks ->
        (length (concat chunks) < 4)%nat ->
        receive_packet (Some (map Data chunks ++ WouldBlock :: rest))
        = (None, Some rest))
  /\ (forall (chunks : list (list Z)) (frame : list Z) (rest : socket),
        Forall (fun c => c <> []) chunks ->
        (length (concat chunks) < 4)%nat ->
        length frame = 4%nat ->
        receive_packet
          (receive_packet
             (Some (map Data chunks ++ WouldBlock :: Data frame :: rest))).2
        = (parse_packet frame, Some rest))
  /\ (forall (pre more : list Z) (frames : list (list Z)) (rest : socket),
        pre <> [] -> more <> [] ->
        tagged_frame (pre ++ more) -> Forall tagged_frame frames ->
        receive_packets (S (length frames))
          (Some (Data pre :: WouldBlock :: Data more :: map Data frames ++ rest))
        = (replicate (S (length frames)) None,
           Some (Data (drop (length pre) (List.last frames (pre ++ more))) :: rest)))
  /\ (forall (frames : list (list Z)) (rest : socket),
        Forall tagged_frame frames ->
        receive_packets (length frames) (Some (map Data frames ++ rest))
        = (map parse_packet frames, Some rest)
        /\ Forall (fun packet => packet <> None) (map parse_packet frames)).
Proof.
  assert (Hblock : forall chunks rest,
            Forall (fun c : list Z => c <> []) chunks ->
            (length (concat chunks) < 4)%nat ->
            receive_packet (Some (map Data chunks ++ WouldBlock :: rest))
            = (None, Some rest)).
  { intros chunks rest Hne Hlen. unfold receive_packet.
    rewrite (read_loop_blocks chunks packet_size _ packet_size rest Hne);
      [reflexivity | exact Hlen | reflexivity]. }
  split; [| split; [| split; [| split]]].
  - intros chunks last extra rest Hne Hlast Hlen.
    unfold receive_packet.
    rewrite (read_loop_chunks chunks packet_size _ packet_size last extra rest
               Hne Hlast Hlen (Nat.le_refl _) (Nat.le_refl _)).
    rewrite Nat.sub_diag, write_at_whole; [reflexivity |].
    rewrite length_app. exact Hlen.
  - exact Hblock.
  - intros chunks frame rest Hne Hlen Hframe.
    rewrite Hblock by assumption. cbn [snd].
    apply receive_packet_whole. exact Hframe.
  - intros pre more frames rest Hpre Hmore Hframe Hframes.
    pose proof (tagged_frame_length _ Hframe) as Hlen.
    rewrite length_app in Hlen. unfold packet_size in Hlen.
    assert (Hm : (0 < length more)%nat) by (destruct more; [contradiction | simpl; lia]).
    assert (Hp : (0 < length pre)%nat) by (destruct pre; [contradiction | simpl; lia]).
    pose proof (Hblock [pre] (Data more :: map Data frames ++ rest)
                  ltac:(apply Forall_singleton; exact Hpre)
                  ltac:(simpl; rewrite app_nil_r; lia)) as E1.
    cbn [map app] in E1.
    pose proof (receive_packets_misaligned frames (pre ++ more) (length pre)
                  rest Hframe ltac:(lia) Hframes) as E.
    rewrite drop_app_length in E.
    cbn [receive_packets].
    change (@Some socket) with (@Some (list event)) in *.
    rewrite E1. cbv beta iota. rewrite E. reflexivity.
  - intros frames rest Hframes. split.
    + apply receive_packets_aligned. exact Hframes.
    + apply Forall_map. apply (Forall_impl _ _ _ Hframes).
      intros frame (b0 & b1 & b2 & b3 & -> & Ht).
      rewrite (parse_packet_tagged _ _ _ _ Ht). discriminate.
Qed.

(** The frames for PROG 16, VERB 37 and NOUN 06, the first one split after
    its second byte by a moment of empty queue: four calls, no event.  The
    same three frames arriving whole: three calls, three events. *)
Lemma receive_packet_short_read_witness :
  receive_packet (Some [Data [1]; Data [69; 160]; Data [230; 1; 69]; Data [160; 231]])
  = (Some (8, 22566), Some [Data [1; 69]; Data [160; 231]])
  /\ receive_packet (Some [Data [1; 69]; WouldBlock; Data [160; 230]])
     = (None, Some [Data [160; 230]])
  /\ receive_packet
       (receive_packet (Some [Data [1]; Data [69]; WouldBlock;
                              Data [1; 69; 160; 231]])).2
     = (Some (8, 22567), Some [])
  /\ receive_packets 3
       (Some [Data [1; 69]; WouldBlock; Data [160; 230];
              Data [1; 69; 129; 231]; Data [1; 68; 160; 198]])
     = ([None; None; None], Some [Data [160; 198]])
  /\ receive_packets 3
       (Some [Data [1; 69; 160; 230]; Data [1; 69; 129; 231];
              Data [1; 68; 160; 198]])
     = ([Some (8, 22566); Some (8, 20583); Some (8, 18438)], Some []).
Proof.
  destruct receive_packet_short_read as (Hacc & Hblock & Hnext & Hlost & Hwhole).
  assert (T1 : tagged_frame [1; 69; 160; 230]).
  { exists 1, 69, 160, 230. split; [reflexivity | repeat split]. }
  assert (T2 : tagged_frame [1; 69; 129; 231]).
  { exists 1, 69, 129, 231. split; [reflexivity | repeat split]. }
  assert (T3 : tagged_frame [1; 68; 160; 198]).
  { exists 1, 68, 160, 198. split; [reflexivity | repeat split]. }
  split; [| split; [| split; [| split]]].
  - apply (Hacc [[1]; [69; 160]] [230] [1; 69] [Data [160; 231]]).
    + apply Forall_cons_2; [discriminate | apply Forall_singleton; discriminate].
    + discriminate.
    + reflexivity.
  - apply (Hblock [[1; 69]] [Data [160; 230]]).
    + apply Forall_singleton. discriminate.
    + simpl. lia.
  - apply (Hnext [[1]; [69]] [1; 69; 160; 231] []).
    + apply Forall_cons_2; [discriminate | apply Forall_singleton; discriminate].
    + simpl. lia.
    + reflexivity.
  - apply (Hlost [1; 69] [160; 230] [[1; 69; 129; 231]; [1; 68; 160; 198]] []).
    + discriminate.
    + discriminate.
    + exact T1.
    + apply Forall_cons_2; [exact T2 | apply Forall_singleton; exact T3].
  - apply (Hwhole [[1; 69; 160; 230]; [1; 69; 129; 231]; [1; 68; 160; 198]] []).
    apply Forall_cons_2; [exact T1 |].
    apply Forall_cons_2; [exact T2 | apply Forall_singleton; exact T3].
Defined.

(** [receive_packet] always gives its four units of fuel to a loop that needs
    at most four iterations. *)
Lemma receive_packet_fuel (sock : socket) :
  (read_loop packet_size (replicate packet_size 0) packet_size sock).1 <> ReadFuel.
Proof. apply read_loop_fuel. reflexivity. Qed.

(** ** The communication loop *)

Lemma receive_packet_nothing (sock sock' : socket) :
  nothing_to_read sock sock' ->
  receive_packet (Some sock) = (None, Some sock').
Proof. intros H. destruct H; reflexivity. Qed.

Lemma table_effect_connected (r : Z) (neg : bool) (d1 d2 : Z) (s : DisplayState) :
  connected (table_effect r neg d1 d2 s) = connected s
  /\ comp_acty (table_effect r neg d1 d2 s) = comp_acty s.
Proof.
  unfold table_effect.
  repeat match goal with
         | |- context [match ?x with _ => _ end] => destruct x
         end; split; reflexivity.
Qed.

(** On a display state of the constructor's shape no event raises; the shape,
    the connectivity flag and the digit range are kept. *)
Lemma process_packet_safe (channel value : Z) (s : DisplayState) :
  wf_state s ->
  exists s',
    process_packet channel value s = Normal s'
    /\ wf_state s'
    /\ connected s' = connected s
    /\ (digits_ok s -> digits_ok s').
Proof.
  intros Hwf. unfold process_packet.
  destruct (channel =? 8).
  - pose proof (decode_channel10_digits_ok value s) as Hd.
    rewrite (decode_channel10_table value s Hwf) in *.
    eexists. split; [reflexivity |].
    split; [by apply table_effect_wf |].
    split; [apply table_effect_connected | exact Hd].
  - destruct (channel =? 9).
    + eexists. split; [reflexivity |].
      split; [exact Hwf |]. split; [reflexivity |]. intros Hd. exact Hd.
    + destruct (channel =? 11), (channel =? 115);
        (eexists; split; [reflexivity |];
         split; [exact Hwf |]; split; [reflexivity |]; intros Hd; exact Hd).
Qed.

(** No event touches the connectivity flag, not even one that raises. *)
Lemma decode_channel10_connected (value : Z) (s : DisplayState) :
  connected (outcome_state (decode_channel10 value s)) = connected s.
Proof.
  pose (P := fun t : DisplayState => connected t = connected s).
  change (P (outcome_state (decode_channel10 value s))).
  assert (Hs : P s) by reflexivity.
  unfold decode_channel10.
  repeat match goal with
         | |- context [if ?c then _ else _] => destruct c
         end;
    repeat (apply and_then_preserves; [| intros ? ?]);
    first [ exact Hs
          | assumption
          | apply store_preserves_weak; assumption ].
Qed.

Lemma process_packet_connected (channel value : Z) (s : DisplayState) :
  connected (outcome_state (process_packet channel value s)) = connected s.
Proof.
  unfold process_packet.
  destruct (channel =? 8); [apply decode_channel10_connected |].
  destruct (channel =? 9); [reflexivity |].
  destruct (channel =? 11), (channel =? 115); reflexivity.
Qed.

(** An iteration of the loop, however it ends, leaves the [running] flag and
    the connectivity flag as they were. *)
Lemma loop_body_keeps (self : AGCCommunicator) :
  match loop_body self with
  | inr self' | inl (_, self') =>
      running self' = running self
      /\ connected (display_state self') = connected (display_state self)
  end.
Proof.
  unfold loop_body.
  destruct (receive_packet (self_socket self)) as [[[channel value]|] sock'].
  - pose proof (process_packet_connected channel value (display_state self)) as H.
    destruct (process_packet channel value (display_state self));
      split; [reflexivity | exact H | reflexivity | exact H].
  - split; reflexivity.
Qed.

(** A loop whose [running] flag is set ends in no way but by an exception of
    [process_packet]; until then it is still running, flags unchanged. *)
Lemma main_loop_outcome (n : nat) :
  forall self : AGCCommunicator,
    running self = true ->
    exists self',
      (main_loop n self = StillRunning self'
       \/ exists e, main_loop n self = Propagated e self')
      /\ running self' = true
      /\ connected (display_state self') = connected (display_state self).
Proof.
  induction n as [|n IH]; intros self Hrun.
  - exists self. simpl. rewrite Hrun. auto.
  - cbn [main_loop]. rewrite Hrun.
    pose proof (loop_body_keeps self) as Hk.
    destruct (loop_body self) as [[e c] | c]; destruct Hk as [Hr Hc].
    + exists c. split; [right; exists e; reflexivity |].
      split; [congruence | exact Hc].
    + destruct (IH c ltac:(congruence)) as (c' & Hres & Hr' & Hc').
      exists c'. split; [exact Hres |]. split; [exact Hr' | congruence].
Qed.

(** On a display state of the constructor's shape there is no exception
    either: the loop just goes on. *)
Lemma main_loop_polls (n : nat) :
  forall self : AGCCommunicator,
    running self = true -> wf_state (display_state self) ->
    exists self',
      main_loop n self = StillRunning self'
      /\ running self' = true
      /\ wf_state (display_state self')
      /\ connected (display_state self') = connected (display_state self).
Proof.
  induction n as [|n IH]; intros self Hrun Hwf.
  - exists self. simpl. rewrite Hrun. auto.
  - cbn [main_loop]. rewrite Hrun. unfold loop_body.
    destruct (receive_packet (self_socket self)) as [[[channel value]|] sock'].
    + destruct (process_packet_safe channel value _ Hwf)
        as (s' & -> & Hwf' & Hc & _).
      destruct (IH (mkAGCCommunicator sock' (running self) s') Hrun Hwf')
        as (c & Hres & Hr & Hwfc & Hcc).
      exists c. simpl in Hcc.
      split; [exact Hres |]. split; [exact Hr |]. split; [exact Hwfc | congruence].
    + destruct (IH (mkAGCCommunicator sock' (running self) (display_state self))
                  Hrun Hwf) as (c & Hres & Hr & Hwfc & Hcc).
      exists c. auto.
Qed.

(** A closed stream is polled again and again: nothing changes. *)
Lemma main_loop_closed (n : nat) (self : AGCCommunicator) :
  running self = true -> self_socket self = Some [] ->
  main_loop n self = StillRunning self.
Proof.
  destruct self as [sock run st]. simpl. intros -> ->.
  induction n as [|n IH]; [reflexivity | exact IH].
Qed.

(** C3, as stated, fails: on a closed stream the loop with its [running]
    flag set has not exited after its first iteration. *)
Lemma loop_exits_on_close_or_error_fails : ~ loop_exits_on_close_or_error.
Proof.
  intros H.
  destruct (H (mkAGCCommunicator (Some []) true DisplayState_init) 0%nat
              eq_refl (or_introl eq_refl)) as (self' & Hexit).
  discriminate Hexit.
Qed.

(** C3: what the communication loop does when the connection is lost.  A
    zero-byte read (the peer has closed), a would-block, a timeout and any
    other transport error all make [receive_packet] return nothing, and the
    loop treats them alike: the iteration changes nothing but the socket and
    the loop goes on.  A loop whose [running] flag is set never exits: after
    any number of iterations it is still running, or an exception of
    [process_packet] has ended the thread with the flag still set, and the
    latter cannot happen on a display state of the constructor's shape.  In
    both cases the [connected] flag of the display state is what it was: on a
    stream the peer has closed the loop polls for ever, from the first
    iteration after a successful [connect] on, and the display goes on saying
    connected, so the overlay for a lost connection is never shown.  The loop
    exits when the flag has been cleared ([stop]); and when [connect] fails,
    [communication_loop] does clear both flags and returns before its first
    iteration. *)
Theorem communication_loop_continues :
  (forall (self : AGCCommunicator) (sock sock' : socket),
     self_socket self = Some sock -> nothing_to_read sock sock' ->
     loop_body self
     = inr (mkAGCCommunicator (Some sock') (running self) (display_state self)))
  /\ (forall (n : nat) (self : AGCCommunicator),
        running self = true -> forall self', main_loop n self <> Exited self')
  /\ (forall (n : nat) (self : AGCCommunicator),
        running self = true ->
        exists self',
          (main_loop n self = StillRunning self'
           \/ exists e, main_loop n self = Propagated e self')
          /\ running self' = true
          /\ connected (display_state self') = connected (display_state self))
  /\ (forall (n : nat) (self : AGCCommunicator),
        running self = true -> wf_state (display_state self) ->
        exists self',
          main_loop n self = StillRunning self'
          /\ running self' = true
          /\ connected (display_state self') = connected (display_state self))
  /\ (forall (n : nat) (self : AGCCommunicator) (sock sock' : socket),
        running self = true ->
        self_socket self = Some sock -> nothing_to_read sock sock' ->
        main_loop (S n) self
        = main_loop n (mkAGCCommunicator (Some sock') true (display_state self)))
  /\ (forall (n : nat) (self : AGCCommunicator),
        running self = true -> self_socket self = Some [] ->
        main_loop n self = StillRunning self)
  /\ (forall (n : nat) (self : AGCCommunicator),
        communication_loop (Some []) n self
        = StillRunning (mkAGCCommunicator (Some []) true
                          (with_connected true (display_state self))))
  /\ (forall (n : nat) (self : AGCCommunicator),
        running self = false -> main_loop n self = Exited self)
  /\ (forall (n : nat) (self : AGCCommunicator),
        running (stop self) = false
        /\ main_loop n (stop self) = Exited (stop self))
  /\ (forall (n : nat) (self : AGCCommunicator),
        exists self',
          communication_loop None n self = Exited self'
          /\ running self' = false
          /\ connected (display_state self') = false).
Proof.
  assert (Hbody : forall self sock sock',
            self_socket self = Some sock -> nothing_to_read sock sock' ->
            loop_body self
            = inr (mkAGCCommunicator (Some sock') (running self) (display_state self))).
  { intros self sock sock' Hs Hn. unfold loop_body.
    rewrite Hs, (receive_packet_nothing _ _ Hn). reflexivity. }
  split; [exact Hbody |].
  split.
  { intros n self Hrun self' Hex.
    destruct (main_loop_outcome n self Hrun) as (c & [Hres | [e Hres]] & _);
      rewrite Hres in Hex; discriminate Hex. }
  split; [intros n self Hrun; exact (main_loop_outcome n self Hrun) |].
  split.
  { intros n self Hrun Hwf.
    destruct (main_loop_polls n self Hrun Hwf) as (c & Hres & Hr & _ & Hc).
    exists c. auto. }
  split.
  { intros n self sock sock' Hrun Hs Hn.
    cbn [main_loop]. rewrite Hrun, (Hbody _ _ _ Hs Hn), Hrun. reflexivity. }
  split; [intros n self; apply main_loop_closed |].
  split.
  { intros n self. unfold communication_loop. cbn [Comm.connect negb].
    apply main_loop_closed; reflexivity. }
  split.
  { intros n self Hrun. destruct n; simpl; rewrite Hrun; reflexivity. }
  split.
  { intros n self. split; [reflexivity |]. destruct n; reflexivity. }
  intros n self. eexists. split; [reflexivity |]. split; reflexivity.
Qed.

(** A stream that fails, then delivers a frame, then is closed: the loop
    survives the error, shows PROG 16, and keeps polling the closed stream.
    A peer that closes right after [connect]: the thread polls, and the
    display says connected. *)
Lemma communication_loop_continues_witness :
  main_loop 5 (mkAGCCommunicator (Some [Fail; Data [1; 69; 160; 230]]) true
                 DisplayState_init)
  = StillRunning (mkAGCCommunicator (Some []) true
                    (set_prog 1 6 DisplayState_init))
  /\ (forall self',
        main_loop 7 (mkAGCCommunicator (Some []) true DisplayState_init)
        <> Exited self')
  /\ main_loop 7 (mkAGCCommunicator (Some []) true DisplayState_init)
     = StillRunning (mkAGCCommunicator (Some []) true DisplayState_init)
  /\ communication_loop (Some []) 7 (AGCCommunicator_init DisplayState_init)
     = StillRunning (mkAGCCommunicator (Some []) true DisplayState_init)
  /\ main_loop 7 (mkAGCCommunicator (Some [Fail]) false DisplayState_init)
     = Exited (mkAGCCommunicator (Some [Fail]) false DisplayState_init).
Proof.
  destruct communication_loop_continues
    as (_ & Hnever & _ & _ & Hstep & Hclosed & Hcomm & Hflag & _).
  split; [| split; [| split; [| split]]].
  - rewrite (Hstep 4%nat
               (mkAGCCommunicator (Some [Fail; Data [1; 69; 160; 230]]) true
                  DisplayState_init)
               [Fail; Data [1; 69; 160; 230]] [Data [1; 69; 160; 230]]
               eq_refl eq_refl (transport_error _)).
    reflexivity.
  - apply Hnever. reflexivity.
  - apply Hclosed; reflexivity.
  - apply (Hcomm 7%nat (AGCCommunicator_init DisplayState_init)).
  - apply Hflag. reflexivity.
Defined.

(** * Further properties of the code *)

(** ** The retry loop of [connect] *)

Section ConnectLoopFacts.

Import ConnectLoop.

Variable reconnect_max_attempts : Z.

(** Refused attempts that the limit allows are slept through one by one;
    each leaves its unconnected socket behind. *)
Lemma connect_from_refused (k : nat) :
  forall (net : list attempt) (attempts : Z) (slept : nat) (self : AGCCommunicator),
    0 <= attempts ->
    (reconnect_max_attempts <= 0 \/ attempts + Z.of_nat k < reconnect_max_attempts) ->
    connect_from reconnect_max_attempts (replicate k Refused ++ net) attempts slept self
    = connect_from reconnect_max_attempts net (attempts + Z.of_nat k) (slept + k)%nat
        (after_refusals k self).
Proof.
  induction k as [|k IH]; intros net attempts slept self H0 Hmax.
  - simpl. rewrite Z.add_0_r, Nat.add_0_r. reflexivity.
  - cbn [replicate app connect_from].
    assert (Hb : forall a, 0 <= a -> a <= attempts + 1 ->
                 below_max reconnect_max_attempts a = true).
    { intros a Ha Hle. unfold below_max.
      destruct (Z.gtb_spec reconnect_max_attempts 0); [| reflexivity].
      apply Z.ltb_lt. lia. }
    rewrite (Hb attempts), (Hb (attempts + 1)) by lia.
    rewrite IH by lia.
    assert (Hself : after_refusals k (new_socket self) = after_refusals (S k) self)
      by (destruct k; reflexivity).
    rewrite Hself.
    f_equal; lia.
Qed.

(** X1: when the peer accepts after [k] refused attempts, and the limit (if
    there is one) allows more than [k] attempts, [connect] returns [True]
    after sleeping [k] times; the communicator holds the accepted socket, the
    display state says connected, and the later attempts are not made. *)
Theorem connect_succeeds_after_refusals
    (k : nat) (sock : socket) (rest : list attempt) (self : AGCCommunicator) :
  (reconnect_max_attempts <= 0 \/ Z.of_nat k < reconnect_max_attempts) ->
  connect reconnect_max_attempts (replicate k Refused ++ Accepted sock :: rest) self
  = Some (mkRun true k (Comm.connect (Some sock) self).2 rest).
Proof.
  intros Hmax. unfold connect.
  rewrite connect_from_refused by lia.
  cbn [connect_from].
  assert (Hb : below_max reconnect_max_attempts (0 + Z.of_nat k) = true).
  { unfold below_max. destruct (Z.gtb_spec reconnect_max_attempts 0); [| reflexivity].
    apply Z.ltb_lt. lia. }
  rewrite Hb. destruct k; reflexivity.
Qed.

(** X2: with a positive limit, when the first [reconnect_max_attempts]
    attempts are all refused, [connect] returns [False] after exactly that
    many attempts and one sleep fewer.  It leaves [self.socket] bound to the
    unconnected socket of the last attempt, whatever the attribute held
    before, and the display state disconnected; [running] and the rest of
    the display state are as they were.  This is the communicator the
    summary [Comm.connect None] gives, and [disconnect] then resets
    [self.socket] to [None]. *)
Theorem connect_gives_up_at_limit
    (rest : list attempt) (self : AGCCommunicator) :
  0 < reconnect_max_attempts ->
  let self' :=
    mkAGCCommunicator (Some unconnected) (running self)
      (with_connected false (display_state self)) in
  connect reconnect_max_attempts
    (replicate (Z.to_nat reconnect_max_attempts) Refused ++ rest) self
  = Some (mkRun false (Z.to_nat reconnect_max_attempts - 1) self' rest)
  /\ (Comm.connect None self).2 = self'
  /\ disconnect self'
     = mkAGCCommunicator None (running self)
         (with_connected false (display_state self)).
Proof.
  intros Hmax self'. split; [| split; reflexivity]. subst self'. revert Hmax.
  intros Hmax. unfold connect.
  destruct (Z.to_nat reconnect_max_attempts) as [|k] eqn:Ek; [lia |].
  replace (S k) with (k + 1)%nat by lia.
  rewrite replicate_add, <- app_assoc.
  rewrite connect_from_refused by lia.
  cbn [replicate app connect_from].
  assert (Hb1 : below_max reconnect_max_attempts (0 + Z.of_nat k) = true).
  { unfold below_max. destruct (Z.gtb_spec reconnect_max_attempts 0); [| lia].
    apply Z.ltb_lt. lia. }
  assert (Hb2 : below_max reconnect_max_attempts (0 + Z.of_nat k + 1) = false).
  { unfold below_max. destruct (Z.gtb_spec reconnect_max_attempts 0); [| lia].
    apply Z.ltb_ge. lia. }
  rewrite Hb1, Hb2.
  replace (0 + k)%nat with (k + 1 - 1)%nat by lia.
  destruct k; reflexivity.
Qed.

(** With a positive limit the loop ends within the limit, whatever the
    network does. *)
Lemma connect_from_bounded (net : list attempt) :
  forall (attempts : Z) (slept : nat) (self : AGCCommunicator),
    0 < reconnect_max_attempts -> 0 <= attempts ->
    reconnect_max_attempts - attempts <= Z.of_nat (length net) ->
    exists run,
      connect_from reconnect_max_attempts net attempts slept self = Some run
      /\ exists used, net = used ++ network run
                      /\ Z.of_nat (length used) <= Z.max 0 (reconnect_max_attempts - attempts)
                      /\ (below_max reconnect_max_attempts attempts = true ->
                          (sleeps run < slept + length used)%nat).
Proof.
  induction net as [|a net IH]; intros attempts slept self Hmax H0 Hlen.
  - simpl in Hlen. cbn [connect_from].
    assert (Hb : below_max reconnect_max_attempts attempts = false).
    { unfold below_max. destruct (Z.gtb_spec reconnect_max_attempts 0); [| lia].
      apply Z.ltb_ge. lia. }
    rewrite Hb. eexists. split; [reflexivity |].
    exists []. simpl. repeat split; [lia | discriminate].
  - cbn [connect_from].
    destruct (below_max reconnect_max_attempts attempts) eqn:Hb.
    + assert (Hlt : attempts < reconnect_max_attempts).
      { unfold below_max in Hb.
        destruct (Z.gtb_spec reconnect_max_attempts 0); [| lia].
        by apply Z.ltb_lt. }
      destruct a as [sock|].
      * eexists. split; [reflexivity |].
        exists [Accepted sock]. simpl. repeat split; lia.
      * destruct (below_max reconnect_max_attempts (attempts + 1)) eqn:Hb'.
        -- simpl in Hlen.
           destruct (IH (attempts + 1) (S slept) (new_socket self) Hmax
                       ltac:(lia) ltac:(lia))
             as (run & Hrun & used & Hnet & Hused & Hsl).
           specialize (Hsl Hb').
           exists run. split; [exact Hrun |].
           exists (Refused :: used). simpl. rewrite Hnet at 1.
           repeat split; lia.
        -- eexists. split; [reflexivity |].
           exists [Refused]. simpl. repeat split; lia.
    + eexists. split; [reflexivity |].
      exists []. simpl. repeat split; [lia | discriminate].
Qed.

(** X3: with a positive limit [connect] always returns once the network has
    answered [reconnect_max_attempts] attempts: it makes at most that many
    attempts and sleeps fewer times than it makes attempts (at most
    [reconnect_max_attempts - 1] times). *)
Theorem connect_bounded
    (net : list attempt) (self : AGCCommunicator) :
  0 < reconnect_max_attempts ->
  reconnect_max_attempts <= Z.of_nat (length net) ->
  exists run,
    connect reconnect_max_attempts net self = Some run
    /\ exists used, net = used ++ network run
                    /\ Z.of_nat (length used) <= reconnect_max_attempts
                    /\ (sleeps run < length used)%nat.
Proof.
  intros Hmax Hlen. unfold connect.
  destruct net as [|a net]; [simpl in Hlen; lia |].
  cbn [connect_from].
  assert (Hb : below_max reconnect_max_attempts 0 = true).
  { unfold below_max. destruct (Z.gtb_spec reconnect_max_attempts 0); [| lia].
    apply Z.ltb_lt. lia. }
  rewrite Hb. destruct a as [sock|].
  - eexists. split; [reflexivity |]. exists [Accepted sock]. simpl.
    repeat split; lia.
  - destruct (below_max reconnect_max_attempts (0 + 1)) eqn:Hb'.
    + simpl in Hlen.
      destruct (connect_from_bounded net (0 + 1) 1%nat (new_socket self) Hmax
                  ltac:(lia) ltac:(lia))
        as (run & Hrun & used & Hnet & Hused & Hsl).
      specialize (Hsl Hb').
      exists run. split; [exact Hrun |].
      exists (Refused :: used). simpl. rewrite Hnet at 1.
      repeat split; lia.
    + eexists. split; [reflexivity |]. exists [Refused]. simpl.
      repeat split; lia.
Qed.

(** Without a limit the loop only ends by a successful attempt. *)
Lemma connect_from_unlimited (net : list attempt) :
  forall (attempts : Z) (slept : nat) (self : AGCCommunicator) (run : connect_run),
    reconnect_max_attempts <= 0 ->
    connect_from reconnect_max_attempts net attempts slept self = Some run ->
    exists k sock,
      net = replicate k Refused ++ Accepted sock :: network run
      /\ run = mkRun true (slept + k) (Comm.connect (Some sock) self).2 (network run).
Proof.
  induction net as [|a net IH]; intros attempts slept self run Hmax Hrun.
  - cbn [connect_from] in Hrun.
    assert (Hb : below_max reconnect_max_attempts attempts = true).
    { unfold below_max. destruct (Z.gtb_spec reconnect_max_attempts 0); [lia | reflexivity]. }
    rewrite Hb in Hrun. discriminate Hrun.
  - cbn [connect_from] in Hrun.
    assert (Hb : forall a, below_max reconnect_max_attempts a = true).
    { intros a'. unfold below_max.
      destruct (Z.gtb_spec reconnect_max_attempts 0); [lia | reflexivity]. }
    rewrite Hb in Hrun. destruct a as [sock|].
    + injection Hrun as <-. exists 0%nat, sock. simpl.
      rewrite Nat.add_0_r. split; reflexivity.
    + rewrite Hb in Hrun.
      destruct (IH _ _ _ _ Hmax Hrun) as (k & sock & Hnet & Hr).
      exists (S k), sock. simpl. rewrite Hnet at 1.
      split; [reflexivity |]. rewrite Hr at 1. simpl. do 2 f_equal. lia.
Qed.

(** X4: with [reconnect_max_attempts] zero or negative [connect] never gives
    up: if it returns at all it returns [True], after sleeping once per
    refused attempt, with the socket of the first accepted attempt; and as
    long as every attempt is refused it does not return. *)
Theorem connect_unlimited_never_gives_up
    (net : list attempt) (self : AGCCommunicator) :
  reconnect_max_attempts <= 0 ->
  (forall run,
     connect reconnect_max_attempts net self = Some run ->
     exists k sock,
       net = replicate k Refused ++ Accepted sock :: network run
       /\ run = mkRun true k (Comm.connect (Some sock) self).2 (network run))
  /\ (forall k, net = replicate k Refused ->
                connect reconnect_max_attempts net self = None).
Proof.
  intros Hmax. split.
  - intros run Hrun. unfold connect in Hrun.
    destruct (connect_from_unlimited net 0 0%nat self run Hmax Hrun)
      as (k & sock & Hnet & Hr).
    exists k, sock. split; [exact Hnet | exact Hr].
  - intros k ->. unfold connect.
    replace (replicate k Refused) with (replicate k Refused ++ []) by apply app_nil_r.
    rewrite connect_from_refused by lia.
    cbn [connect_from].
    assert (Hb : below_max reconnect_max_attempts (0 + Z.of_nat k) = true).
    { unfold below_max. destruct (Z.gtb_spec reconnect_max_attempts 0); [lia | reflexivity]. }
    rewrite Hb. reflexivity.
Qed.

End ConnectLoopFacts.

Lemma connect_succeeds_after_refusals_witness :
  ConnectLoop.connect 3
    [ConnectLoop.Refused; ConnectLoop.Refused; ConnectLoop.Accepted [WouldBlock];
     ConnectLoop.Refused]
    (AGCCommunicator_init DisplayState_init)
  = Some (ConnectLoop.mkRun true 2
            (mkAGCCommunicator (Some [WouldBlock]) false DisplayState_init)
            [ConnectLoop.Refused]).
Proof.
  apply (connect_succeeds_after_refusals 3 2 [WouldBlock] [ConnectLoop.Refused]
           (AGCCommunicator_init DisplayState_init)).
  right. lia.
Defined.

(** Three refusals against a limit of three: the socket attribute, [None]
    after the constructor, ends up holding an unconnected socket. *)
Lemma connect_gives_up_at_limit_witness :
  ConnectLoop.connect 3
    [ConnectLoop.Refused; ConnectLoop.Refused; ConnectLoop.Refused;
     ConnectLoop.Accepted []]
    (AGCCommunicator_init DisplayState_init)
  = Some (ConnectLoop.mkRun false 2
            (mkAGCCommunicator (Some [NotConnected]) false
               (with_connected false DisplayState_init))
            [ConnectLoop.Accepted []]).
Proof.
  apply (connect_gives_up_at_limit 3 [ConnectLoop.Accepted []]
           (AGCCommunicator_init DisplayState_init)).
  lia.
Defined.

Lemma connect_bounded_witness :
  exists run,
    ConnectLoop.connect 2
      [ConnectLoop.Refused; ConnectLoop.Refused; ConnectLoop.Refused]
      (AGCCommunicator_init DisplayState_init) = Some run
    /\ exists used,
         [ConnectLoop.Refused; ConnectLoop.Refused; ConnectLoop.Refused]
         = used ++ ConnectLoop.network run
         /\ Z.of_nat (length used) <= 2
         /\ (ConnectLoop.sleeps run < length used)%nat.
Proof.
  apply (connect_bounded 2
           [ConnectLoop.Refused; ConnectLoop.Refused; ConnectLoop.Refused]
           (AGCCommunicator_init DisplayState_init)).
  - lia.
  - simpl. lia.
Defined.

Lemma connect_unlimited_never_gives_up_witness :
  ConnectLoop.connect 0
    [ConnectLoop.Refused; ConnectLoop.Refused; ConnectLoop.Refused]
    (AGCCommunicator_init DisplayState_init) = None.
Proof.
  destruct (connect_unlimited_never_gives_up 0
              [ConnectLoop.Refused; ConnectLoop.Refused; ConnectLoop.Refused]
              (AGCCommunicator_init DisplayState_init)) as [_ H].
  - lia.
  - apply (H 3%nat). reflexivity.
Defined.

(** ** What the communication loop keeps *)

(** X5: started on a display state of the constructor's shape, the
    communication loop never lets an exception escape, whatever the stream
    delivers and however long it runs; the digit lists keep their lengths,
    digits that were in 0..9 stay in 0..9, and neither the [running] flag nor
    the [connected] flag of the display state is ever changed by the loop: a
    connection the peer has closed is still shown as connected. *)
Theorem main_loop_never_raises (n : nat) :
  forall self : AGCCommunicator,
    wf_state (display_state self) ->
    exists self',
      (main_loop n self = Exited self' \/ main_loop n self = StillRunning self')
      /\ wf_state (display_state self')
      /\ running self' = running self
      /\ connected (display_state self') = connected (display_state self)
      /\ (digits_ok (display_state self) -> digits_ok (display_state self')).
Proof.
  induction n as [|n IH]; intros self Hwf.
  - exists self. simpl. destruct (running self); auto 10.
  - cbn [main_loop]. destruct (running self) eqn:Hrun.
    + unfold loop_body.
      destruct (receive_packet (self_socket self)) as [[[channel value]|] sock'].
      * destruct (process_packet_safe channel value _ Hwf)
          as (s' & -> & Hwf' & Hc & Hd).
        destruct (IH (mkAGCCommunicator sock' (running self) s') Hwf')
          as (c & Hres & Hwfc & Hrc & Hcc & Hdc).
        exists c. simpl in Hrc, Hcc, Hdc.
        split; [exact Hres |]. split; [exact Hwfc |].
        split; [congruence |]. split; [congruence |].
        intros Hds. apply Hdc, Hd, Hds.
      * destruct (IH (mkAGCCommunicator sock' (running self) (display_state self)) Hwf)
          as (c & Hres & Hwfc & Hrc & Hcc & Hdc).
        exists c. simpl in Hrc, Hcc, Hdc.
        split; [exact Hres |]. split; [exact Hwfc |].
        split; [congruence |]. split; [congruence |]. exact Hdc.
    + exists self. auto 10.
Qed.

(** A frame for PROG 16, a frame with a broken tag, then the peer closes. *)
Lemma main_loop_never_raises_witness :
  exists self',
    (main_loop 6 (mkAGCCommunicator
                    (Some [Data [1; 69; 160; 230]; Data [1; 5; 160; 230]])
                    true DisplayState_init) = Exited self'
     \/ main_loop 6 (mkAGCCommunicator
                       (Some [Data [1; 69; 160; 230]; Data [1; 5; 160; 230]])
                       true DisplayState_init) = StillRunning self')
    /\ connected (display_state self') = true.
Proof.
  destruct (main_loop_never_raises 6
              (mkAGCCommunicator
                 (Some [Data [1; 69; 160; 230]; Data [1; 5; 160; 230]])
                 true DisplayState_init) wf_state_init)
    as (c & Hres & _ & _ & Hc & _).
  exists c. split; [exact Hres | exact Hc].
Defined.

(** ** Frames: what is accepted, what is dropped, what comes out *)

(** X6: four bytes at the head of the stream are accepted as a frame exactly
    when all four tags are right.  Accepted or not, [receive_packet] consumes
    exactly these four bytes: after a frame with a wrong tag the call returns
    nothing and the next read starts at the fifth byte, with no search for
    the next frame boundary. *)
Theorem receive_packet_tag_check
    (b0 b1 b2 b3 : Z) (extra : list Z) (rest : socket) :
  let sock := Data ([b0; b1; b2; b3] ++ extra) :: rest in
  let sock' := match extra with [] => rest | _ => Data extra :: rest end in
  (tagged b0 b1 b2 b3 ->
   exists channel value,
     receive_packet (Some sock) = (Some (channel, value), Some sock'))
  /\ (~ tagged b0 b1 b2 b3 ->
      receive_packet (Some sock) = (None, Some sock')).
Proof.
  intros sock sock'.
  assert (H : receive_packet (Some sock) = (parse_packet [b0; b1; b2; b3], Some sock')).
  { subst sock sock'. destruct extra; reflexivity. }
  split.
  - intros Ht. rewrite H, (parse_packet_tagged _ _ _ _ Ht). eauto.
  - intros Hn. rewrite H, (parse_packet_untagged _ _ _ _ Hn). reflexivity.
Qed.

(** Byte 2 carries the tag of byte 3: the frame is dropped, and the frame
    that follows it is read from its own first byte. *)
Lemma receive_packet_tag_check_witness :
  receive_packet (Some [Data [1; 69; 230; 160; 1; 69; 160; 230]])
  = (None, Some [Data [1; 69; 160; 230]])
  /\ exists channel value,
       receive_packet (Some [Data [1; 69; 160; 230]])
       = (Some (channel, value), Some []).
Proof.
  split.
  - apply (receive_packet_tag_check 1 69 230 160 [1; 69; 160; 230] []).
    intros (_ & _ & T2 & _). discriminate T2.
  - apply (receive_packet_tag_check 1 69 160 230 [] []).
    repeat split.
Defined.

Lemma land_mask_range (x : Z) (k : Z) :
  0 <= k -> 0 <= Z.land x (Z.ones k) < 2 ^ k.
Proof.
  intros Hk. rewrite Z.land_ones by assumption.
  apply Z.mod_pos_bound. apply Z.pow_pos_nonneg; lia.
Qed.

Lemma lor_range (a b n : Z) :
  0 <= n -> 0 <= a < 2 ^ n -> 0 <= b < 2 ^ n -> 0 <= Z.lor a b < 2 ^ n.
Proof.
  intros Hn Ha Hb.
  assert (H0 : 0 <= Z.lor a b) by (apply Z.lor_nonneg; lia).
  split; [exact H0 |].
  destruct (Z.eq_dec (Z.lor a b) 0) as [E | E].
  { rewrite E. apply Z.pow_pos_nonneg; lia. }
  assert (Hn' : 0 < n).
  { destruct (Z.eq_dec n 0) as [-> |]; [| lia].
    change (2 ^ 0) with 1 in *.
    assert (a = 0) by lia. assert (b = 0) by lia. subst. contradiction. }
  assert (L : forall c, 0 <= c < 2 ^ n -> Z.log2 c < n).
  { intros c Hc. destruct (Z.eq_dec c 0) as [-> |].
    - change (Z.log2 0) with 0. exact Hn'.
    - apply Z.log2_lt_pow2; lia. }
  apply Z.log2_lt_pow2; [lia |].
  rewrite Z.log2_lor by lia.
  pose proof (L a Ha). pose proof (L b Hb). lia.
Qed.

(** X7: whatever integers the buffer holds, a pair that [parse_packet]
    returns has its channel in 0..127 and its value in 0..32767. *)
Theorem parse_packet_ranges (input_buffer : list Z) (channel value : Z) :
  parse_packet input_buffer = Some (channel, value) ->
  0 <= channel < 128 /\ 0 <= value < 32768.
Proof.
  unfold parse_packet.
  set (b0 := input_buffer !!! 0%nat). set (b1 := input_buffer !!! 1%nat).
  set (b2 := input_buffer !!! 2%nat). set (b3 := input_buffer !!! 3%nat).
  destruct (negb _); [discriminate |].
  destruct (negb _); [discriminate |].
  destruct (negb _); [discriminate |].
  destruct (negb _); [discriminate |].
  intros [= <- <-].
  pose proof (land_mask_range b0 4 ltac:(lia)) as R0.
  pose proof (land_mask_range (Z.shiftr b1 3) 3 ltac:(lia)) as R1.
  pose proof (land_mask_range b1 3 ltac:(lia)) as R1'.
  pose proof (land_mask_range b2 6 ltac:(lia)) as R2.
  pose proof (land_mask_range b3 6 ltac:(lia)) as R3.
  change (Z.ones 4) with 15 in R0. change (Z.ones 3) with 7 in R1, R1'.
  change (Z.ones 6) with 63 in R2, R3.
  change (2 ^ 4) with 16 in R0. change (2 ^ 3) with 8 in R1, R1'.
  change (2 ^ 6) with 64 in R2, R3.
  assert (E1 : Z.shiftr (Z.land b1 56) 3 = Z.land (Z.shiftr b1 3) 7)
    by (rewrite Z.shiftr_land; reflexivity).
  rewrite E1, !Z.shiftl_mul_pow2 by lia.
  change (2 ^ 3) with 8. change (2 ^ 12) with 4096. change (2 ^ 6) with 64.
  split.
  - apply (lor_range _ _ 7); change (2 ^ 7) with 128; lia.
  - apply (lor_range _ _ 15); [lia | | change (2 ^ 15) with 32768; lia].
    apply (lor_range _ _ 15); change (2 ^ 15) with 32768; lia.
Qed.

Lemma parse_packet_ranges_witness :
  0 <= 8 < 128 /\ 0 <= 22566 < 32768.
Proof.
  apply (parse_packet_ranges [1; 69; 160; 230] 8 22566). reflexivity.
Defined.

(** ** From the wire to the display *)

Lemma frame_head_checked (channel y : Z) :
  0 <= channel < 128 -> 0 <= y < 8 -> frame_head_ok channel y = true.
Proof.
  intros Hc Hy.
  apply (forall_range (fun y => frame_head_ok channel y) 0 8); [| lia].
  apply (forall_range
           (fun c => forallb (fun y => frame_head_ok c y) (seqZ 0 8)) 0 128);
    [vm_compute; reflexivity | lia].
Qed.

Lemma all_below_spec (n : nat) :
  forall P : Z -> bool,
    all_below n P = true ->
    forall x, 0 <= x < 2 ^ Z.of_nat n -> P x = true.
Proof.
  induction n as [|n IH]; intros P H x Hx.
  - change (2 ^ Z.of_nat 0) with 1 in Hx. assert (x = 0) as -> by lia. exact H.
  - cbn [all_below] in H. apply andb_true_iff in H as [Heven Hodd].
    rewrite Nat2Z.inj_succ, Z.pow_succ_r in Hx by lia.
    pose proof (Z.div_mod x 2 ltac:(lia)) as Hdm.
    pose proof (Z.mod_pos_bound x 2 ltac:(lia)) as Hm.
    assert (Hh : 0 <= x / 2 < 2 ^ Z.of_nat n).
    { split; [apply Z.div_pos; lia | apply Z.div_lt_upper_bound; lia]. }
    destruct (Z.eq_dec (x mod 2) 0) as [E | E].
    + pose proof (IH _ Heven (x / 2) Hh) as Hp. cbv beta in Hp.
      replace (2 * (x / 2)) with x in Hp by lia. exact Hp.
    + pose proof (IH _ Hodd (x / 2) Hh) as Hp. cbv beta in Hp.
      replace (2 * (x / 2) + 1) with x in Hp by lia. exact Hp.
Qed.

Lemma frame_tail_checked (value : Z) :
  0 <= value < 32768 -> frame_tail_ok value = true.
Proof.
  intros Hv.
  apply (all_below_spec 15 frame_tail_ok); [vm_compute; reflexivity | exact Hv].
Qed.

Lemma parse_encode (channel value : Z) :
  0 <= channel < 128 -> 0 <= value < 32768 ->
  parse_packet (encode_frame channel value) = Some (channel, value).
Proof.
  intros Hc Hv.
  pose proof (frame_tail_checked value Hv) as Ht. unfold frame_tail_ok in Ht.
  cbv zeta in Ht.
  repeat (apply andb_true_iff in Ht; destruct Ht as [Ht ?]).
  assert (Hy : 0 <= Z.land (Z.shiftr value 12) 7 < 8) by lia.
  pose proof (frame_head_checked channel _ Hc Hy) as Hh. unfold frame_head_ok in Hh.
  cbv zeta in Hh.
  repeat (apply andb_true_iff in Hh; destruct Hh as [Hh ?]).
  repeat match goal with
         | E : (_ =? _) = true |- _ => apply Z.eqb_eq in E
         end.
  unfold encode_frame, parse_packet. cbn [lookup_total list_lookup_total].
  repeat match goal with
         | E : Z.land _ _ = _ |- _ => rewrite E
         end.
  cbn [Z.eqb Pos.eqb negb].
  repeat match goal with
         | E : Z.lor _ _ = _ |- _ => rewrite E
         end.
  reflexivity.
Qed.

Lemma encode_frame_bytes (channel value : Z) :
  Forall is_byte (encode_frame channel value).
Proof.
  pose proof (land_mask_range (Z.shiftr channel 3) 4 ltac:(lia)) as R0.
  pose proof (land_mask_range channel 3 ltac:(lia)) as R1.
  pose proof (land_mask_range (Z.shiftr value 12) 3 ltac:(lia)) as R2.
  pose proof (land_mask_range (Z.shiftr value 6) 6 ltac:(lia)) as R3.
  pose proof (land_mask_range value 6 ltac:(lia)) as R4.
  change (Z.ones 4) with 15 in R0. change (Z.ones 3) with 7 in R1, R2.
  change (Z.ones 6) with 63 in R3, R4.
  change (2 ^ 4) with 16 in R0. change (2 ^ 3) with 8 in R1, R2.
  change (2 ^ 6) with 64 in R3, R4.
  unfold encode_frame, is_byte. rewrite Z.shiftl_mul_pow2 by lia.
  change (2 ^ 3) with 8. change 256 with (2 ^ 8).
  repeat apply Forall_cons_2; [| | | | apply Forall_nil_2].
  - change (2 ^ 8) with 256. lia.
  - apply lor_range; [lia | | change (2 ^ 8) with 256; lia].
    apply lor_range; change (2 ^ 8) with 256; lia.
  - apply lor_range; change (2 ^ 8) with 256; lia.
  - apply lor_range; change (2 ^ 8) with 256; lia.
Qed.

(** X8: every pair of a channel in 0..127 and a value in 0..32767 is the
    decoding of its packed frame: the packed frame is four bytes that carry
    the tags, and [parse_packet] returns the pair. *)
Theorem parse_packet_encode_frame (channel value : Z) :
  0 <= channel < 128 -> 0 <= value < 32768 ->
  parse_packet (encode_frame channel value) = Some (channel, value)
  /\ Forall is_byte (encode_frame channel value)
  /\ exists b0 b1 b2 b3,
       encode_frame channel value = [b0; b1; b2; b3] /\ tagged b0 b1 b2 b3.
Proof.
  intros Hc Hv.
  pose proof (parse_encode channel value Hc Hv) as Hp.
  split; [exact Hp |]. split; [apply encode_frame_bytes |].
  unfold encode_frame in *. do 4 eexists. split; [reflexivity |].
  match goal with
  | |- tagged ?b0 ?b1 ?b2 ?b3 =>
      destruct (decide (Z.land b0 240 = 0 /\ Z.land b1 192 = 64
                        /\ Z.land b2 192 = 128 /\ Z.land b3 192 = 192))
        as [Ht | Hn]; [exact Ht |];
      rewrite (parse_packet_untagged b0 b1 b2 b3 Hn) in Hp; discriminate Hp
  end.
Qed.

Lemma parse_packet_encode_frame_witness :
  parse_packet (encode_frame 9 2) = Some (9, 2).
Proof. apply (parse_packet_encode_frame 9 2); lia. Defined.

(** X9: the whole pipeline.  When the packed frame of an event is next on
    the stream, one iteration of the communication loop consumes exactly that
    frame and does to the display state what [process_packet] does with the
    event; the [running] flag is untouched. *)
Theorem loop_body_processes_frame
    (channel value : Z) (rest : socket) (self : AGCCommunicator) :
  0 <= channel < 128 -> 0 <= value < 32768 ->
  self_socket self = Some (Data (encode_frame channel value) :: rest) ->
  loop_body self
  = match process_packet channel value (display_state self) with
    | Normal st => inr (mkAGCCommunicator (Some rest) (running self) st)
    | Raise e st => inl (e, mkAGCCommunicator (Some rest) (running self) st)
    end.
Proof.
  intros Hc Hv Hs. unfold loop_body. rewrite Hs.
  assert (H : receive_packet (Some (Data (encode_frame channel value) :: rest))
              = (parse_packet (encode_frame channel value), Some rest))
    by reflexivity.
  rewrite H, (parse_encode channel value Hc Hv). reflexivity.
Qed.

(** PROG 16 then VERB 37 on channel octal 10, from the initial state. *)
Lemma loop_body_processes_frame_witness :
  main_loop 2
    (mkAGCCommunicator
       (Some [Data (encode_frame 8 22566); Data (encode_frame 8 20583)])
       true DisplayState_init)
  = StillRunning
      (mkAGCCommunicator (Some []) true
         (set_verb 3 7 (set_prog 1 6 DisplayState_init))).
Proof.
  cbn [main_loop running].
  rewrite (loop_body_processes_frame 8 22566 [Data (encode_frame 8 20583)]);
    [| lia | lia | reflexivity].
  reflexivity.
Defined.

(** ** Digit recovery on every integer *)

Lemma substring_whole (s : string) : String.substring 0 (String.length s) s = s.
Proof. induction s as [|c s IH]; simpl; [reflexivity | f_equal; exact IH]. Qed.

Lemma string_app_assoc (r : string) (c : ascii) (acc : string) :
  (r +:+ String c acc = (r +:+ String c EmptyString) +:+ acc)%string.
Proof.
  induction r as [|x r IH]; [reflexivity |].
  change (String x (r +:+ String c acc) = String x ((r +:+ String c EmptyString) +:+ acc))%string.
  f_equal. exact IH.
Qed.

Lemma octal_char_nonzero (d : Z) : 1 <= d <= 7 -> octal_char d <> "0"%char.
Proof.
  intros Hd.
  assert (H : d = 1 \/ d = 2 \/ d = 3 \/ d = 4 \/ d = 5 \/ d = 6 \/ d = 7) by lia.
  destruct H as [-> | [-> | [-> | [-> | [-> | [-> | ->]]]]]]; discriminate.
Qed.

(** The numeral of a positive number starts with a digit other than [0], and
    has a second digit as soon as the number is 8 or more. *)
Lemma octal_digits_shape (fuel : nat) :
  forall (n : Z) (acc : string),
    0 < n < 8 ^ Z.of_nat fuel ->
    exists c r,
      octal_digits fuel n acc = String c (r +:+ acc)%string
      /\ c <> "0"%char
      /\ (8 <= n -> r <> EmptyString).
Proof.
  induction fuel as [|fuel IH]; intros n acc Hn.
  - change (8 ^ Z.of_nat 0) with 1 in Hn. lia.
  - rewrite Nat2Z.inj_succ, Z.pow_succ_r in Hn by lia.
    cbn [octal_digits].
    destruct (Z.eqb_spec (n / 8) 0) as [E | E].
    + assert (Hlt : n < 8).
      { destruct (Z.lt_ge_cases n 8) as [|Hge]; [assumption |].
        pose proof (Z.div_le_mono 8 n 8 ltac:(lia) Hge) as Hd.
        change (8 / 8) with 1 in Hd. lia. }
      exists (octal_char (n mod 8)), EmptyString.
      split; [reflexivity |]. split; [| lia].
      rewrite Z.mod_small by lia. apply octal_char_nonzero. lia.
    + assert (Hq : 0 < n / 8 < 8 ^ Z.of_nat fuel).
      { split.
        - pose proof (Z.div_pos n 8 ltac:(lia) ltac:(lia)). lia.
        - apply Z.div_lt_upper_bound; lia. }
      destruct (IH (n / 8) (String (octal_char (n mod 8)) acc) Hq)
        as (c & r & Hr & Hc & _).
      exists c, (r +:+ String (octal_char (n mod 8)) EmptyString)%string.
      split; [rewrite Hr, string_app_assoc; reflexivity |].
      split; [exact Hc |].
      intros _. destruct r; discriminate.
Qed.

Lemma octal_fuel (m : Z) :
  0 < m -> 0 < m < 8 ^ Z.of_nat (S (Z.to_nat (Z.log2 m))).
Proof.
  intros Hm. split; [exact Hm |].
  pose proof (Z.log2_nonneg m) as Hl.
  rewrite Nat2Z.inj_succ, Z2Nat.id by exact Hl.
  destruct (Z.log2_spec m Hm) as [_ Hup].
  apply Z.lt_le_trans with (2 ^ Z.succ (Z.log2 m)); [exact Hup |].
  apply Z.pow_le_mono_l. lia.
Qed.

(** [oct(n)[2:]] for a numeral without sign, and for a negative one. *)
Lemma oct_slice_nonneg (d : string) :
  String.substring 2 (String.length ("0o" +:+ d) - 2) ("0o" +:+ d)%string = d.
Proof.
  change ("0o" +:+ d)%string with (String "0" (String "o" d)).
  assert (E : (String.length (String "0" (String "o" d)) - 2 = String.length d)%nat)
    by (simpl; lia).
  rewrite E. cbn [String.substring]. apply substring_whole.
Qed.

Lemma oct_slice_neg (d : string) :
  String.substring 2 (String.length ("-0o" +:+ d) - 2) ("-0o" +:+ d)%string
  = String "o" d.
Proof.
  change ("-0o" +:+ d)%string with (String "-" (String "0" (String "o" d))).
  assert (E : (String.length (String "-" (String "0" (String "o" d))) - 2
               = S (String.length d))%nat) by (simpl; lia).
  rewrite E. cbn [String.substring]. f_equal. apply substring_whole.
Qed.

(** The octal stage never returns for an argument outside 0..7: the numeral
    of 8 or more has no leading zero, and the slice of a negative numeral
    starts with the letter of the prefix. *)
Lemma octal_stage_dead (bits : Z) :
  ~ 0 <= bits <= 7 -> octal_stage bits = None.
Proof.
  intros Hout. unfold octal_stage, oct.
  destruct (Z.ltb_spec bits 0) as [Hneg | Hpos].
  - destruct (octal_digits_shape _ (- bits) EmptyString (octal_fuel (- bits) ltac:(lia)))
      as (c & r & -> & _ & _).
    rewrite oct_slice_neg.
    destruct (r +:+ EmptyString)%string; reflexivity.
  - destruct (octal_digits_shape _ bits EmptyString (octal_fuel bits ltac:(lia)))
      as (c & r & -> & Hc & Hr).
    rewrite oct_slice_nonneg.
    destruct r as [|c1 r]; [exfalso; apply Hr; [lia | reflexivity] |].
    change (String c1 r +:+ EmptyString)%string
      with (String c1 (r +:+ EmptyString))%string.
    destruct (r +:+ EmptyString)%string; [| reflexivity].
    destruct (Ascii.eqb_spec c "0"%char); [contradiction | reflexivity].
Qed.

Lemma table_lookup_other (bits : Z) :
  ~ 0 <= bits <= 9 ->
  bits <> 13 -> bits <> 15 -> bits <> 27 -> bits <> 29 -> bits <> 31 ->
  SEVEN_SEGMENT_TO_DIGIT !! bits = None.
Proof.
  intros H09 H13 H15 H27 H29 H31.
  unfold SEVEN_SEGMENT_TO_DIGIT, dict_display. simpl.
  rewrite !lookup_insert_ne by lia. apply lookup_empty.
Qed.

Lemma seven_segment_to_digit_eq (bits : Z) :
  seven_segment_to_digit bits = Some (digit_of bits).
Proof.
  unfold seven_segment_to_digit, digit_of.
  destruct ((0 <=? bits) && (bits <=? 9)) eqn:Hdirect; [reflexivity |].
  assert (H09 : ~ 0 <= bits <= 9) by lia.
  destruct (Z.eqb_spec bits 13) as [-> |]; [reflexivity |].
  destruct (Z.eqb_spec bits 15) as [-> |]; [reflexivity |].
  destruct (Z.eqb_spec bits 27) as [-> |]; [reflexivity |].
  destruct (Z.eqb_spec bits 29) as [-> |]; [reflexivity |].
  destruct (Z.eqb_spec bits 31) as [-> |]; [reflexivity |].
  rewrite table_lookup_other by assumption.
  rewrite octal_stage_dead by lia. reflexivity.
Qed.

Lemma digit_of_range (bits : Z) : is_digit (digit_of bits).
Proof.
  unfold digit_of, is_digit.
  destruct ((0 <=? bits) && (bits <=? 9)) eqn:Hdirect; [lia |].
  repeat match goal with
         | |- context [if ?c then _ else _] => destruct c; [lia |]
         end.
  pose proof (Z.mod_pos_bound bits 10 ltac:(lia)). lia.
Qed.

(** The digit the dispatcher stores for a 5-bit field. *)
Lemma stored_digit_of (bits : Z) :
  or_zero (seven_segment_to_digit bits) = digit_of bits.
Proof. rewrite seven_segment_to_digit_eq. apply or_zero_Some. Qed.

(** X10: on every integer, not only on 5-bit fields, digit recovery returns
    a digit in 0..9 and never blank.  A value in 0..9 is returned as it is;
    13, 15, 27, 29 and 31 give 5, 9, 2, 6 and 8 (for the keys written twice
    in the table, the later entry); every other integer gives its last
    decimal digit.  The table entries under 0, 6 and 7 and the octal stage
    never decide the result. *)
Theorem seven_segment_to_digit_closed_form (bits : Z) :
  seven_segment_to_digit bits = Some (digit_of bits)
  /\ is_digit (digit_of bits).
Proof. split; [apply seven_segment_to_digit_eq | apply digit_of_range]. Qed.

(** ** Registers of the wrong length *)

Lemma store_Normal get put (i : nat) (x : Z) (s : DisplayState) :
  (i < length (get s))%nat ->
  store get put i x s = Normal (put (<[i := x]> (get s)) s).
Proof.
  intros Hlt. unfold store, setitem.
  destruct (decide (i < length (get s))%nat); [reflexivity | contradiction].
Qed.

Lemma store_Raise get put (i : nat) (x : Z) (s : DisplayState) :
  (length (get s) <= i)%nat ->
  store get put i x s = Raise IndexError s.
Proof.
  intros Hge. unfold store, setitem.
  destruct (decide (i < length (get s))%nat); [lia | reflexivity].
Qed.

Ltac store_step :=
  match goal with
  | |- context [store ?get ?put ?i ?x ?s] =>
      let H := fresh "Hlen" in
      destruct (Nat.lt_ge_cases i (length (get s))) as [H | H];
      [ rewrite (store_Normal get put i x s H)
      | rewrite (store_Raise get put i x s H) ];
      cbn [and_then r1 r2 r3 with_r1 with_r2 with_r3] in *;
      rewrite ?length_insert in *
  end.

(** X11: [decode_channel10] raises exactly when a register it writes is too
    short for the indices of the relay code, and then what it raises is
    [IndexError]; PROG, VERB and NOUN (relays 11, 10, 9), relay 12 and the
    unused relay codes never raise, whatever the state. *)
Theorem decode_channel10_raises_iff (value : Z) (s : DisplayState) :
  match decode_channel10 value s with
  | Normal _ => lengths_suffice (relay_of value) s = true
  | Raise e _ => e = IndexError /\ lengths_suffice (relay_of value) s = false
  end.
Proof.
  pose proof (relay_of_range value) as Hr.
  unfold decode_channel10, relay_of in *.
  generalize (or_zero (seven_segment_to_digit (Z.land (Z.shiftr value 5) 31))).
  generalize (or_zero (seven_segment_to_digit (Z.land value 31))).
  generalize (sign_of (Z.land (Z.shiftr value 10) 1)).
  generalize dependent (Z.land (Z.shiftr value 11) 15).
  intros r Hr g d2 d1.
  assert (Hcases : r = 0 \/ r = 1 \/ r = 2 \/ r = 3 \/ r = 4 \/ r = 5 \/ r = 6
                   \/ r = 7 \/ r = 8 \/ r = 9 \/ r = 10 \/ r = 11 \/ r = 12
                   \/ r = 13 \/ r = 14 \/ r = 15) by lia.
  repeat (destruct Hcases as [-> | Hcases];
          [ cbn [Z.eqb Pos.eqb lengths_suffice];
            repeat store_step;
            first [ reflexivity
                  | split; [reflexivity |];
                    rewrite ?andb_false_iff, ?Nat.leb_gt; lia
                  | rewrite ?andb_true_iff, ?Nat.leb_le; lia ] |]).
  subst r. reflexivity.
Qed.

(** X12: [set_register] stores at most five digits and keeps the old sign
    when none is given; it leaves a display state of the constructor's shape
    in that shape exactly when it is given five digits or more.  Given fewer,
    the register is shorter than five from then on. *)
Theorem set_register_shape
    (reg_num : Z) (digits : list Z) (sign : option string) (s : DisplayState) :
  wf_state s -> 1 <= reg_num <= 3 ->
  (wf_state (set_register reg_num digits sign s) <-> (5 <= length digits)%nat)
  /\ (sign = None ->
      r1_sign (set_register reg_num digits sign s) = r1_sign s
      /\ r2_sign (set_register reg_num digits sign s) = r2_sign s
      /\ r3_sign (set_register reg_num digits sign s) = r3_sign s)
  /\ (reg_num = 1 -> r1 (set_register reg_num digits sign s) = take 5 digits)
  /\ (reg_num = 2 -> r2 (set_register reg_num digits sign s) = take 5 digits)
  /\ (reg_num = 3 -> r3 (set_register reg_num digits sign s) = take 5 digits).
Proof.
  intros (Hp & Hv & Hn & H1 & H2 & H3) Hr.
  assert (Hcases : reg_num = 1 \/ reg_num = 2 \/ reg_num = 3) by lia.
  assert (Htake : length (take 5 digits) = 5%nat <-> (5 <= length digits)%nat)
    by (rewrite length_take; lia).
  unfold wf_state.
  destruct Hcases as [-> | [-> | ->]]; cbn [set_register Z.eqb Pos.eqb];
    (split;
     [ destruct sign; simpl; rewrite ?Hp, ?Hv, ?Hn, ?H1, ?H2, ?H3; intuition
     | split; [intros ->; repeat split
              | repeat split; intros; try discriminate; destruct sign; reflexivity] ]).
Qed.

Lemma set_register_shape_witness :
  (wf_state (set_register 1 [1; 2; 3; 4] None DisplayState_init)
   <-> (5 <= length [1; 2; 3; 4])%nat)
  /\ r1 (set_register 1 [1; 2; 3; 4; 5; 6] (Some "-"%string) DisplayState_init)
     = [1; 2; 3; 4; 5].
Proof.
  split.
  - apply (set_register_shape 1 [1; 2; 3; 4] None DisplayState_init wf_state_init).
    lia.
  - apply (set_register_shape 1 [1; 2; 3; 4; 5; 6] (Some "-"%string)
             DisplayState_init wf_state_init); [lia | reflexivity].
Defined.

(** X13: the stores of one channel-10 update are not undone when a later
    one raises.  After [set_register] has put four digits in register 1, a
    relay-6 update writes its first digit to r1[3], raises [IndexError] at
    r1[4], and leaves the first digit in place. *)
Theorem decode_channel10_partial_store
    (value a b c d : Z) (sign : option string) (s : DisplayState) :
  relay_of value = 6 ->
  decode_channel10 value (set_register 1 [a; b; c; d] sign s)
  = Raise IndexError
      (with_r1 [a; b; c; or_zero (seven_segment_to_digit (digit1_of value))]
         (set_register 1 [a; b; c; d] sign s)).
Proof.
  unfold relay_of, digit1_of. intros Hr.
  unfold decode_channel10. rewrite Hr. cbn [Z.eqb Pos.eqb].
  destruct sign; reflexivity.
Qed.

Lemma decode_channel10_partial_store_witness :
  decode_channel10 (6 * 2048 + 4 * 32 + 5)
    (set_register 1 [1; 2; 3; 0] None DisplayState_init)
  = Raise IndexError
      (with_r1 [1; 2; 3; 4] (set_register 1 [1; 2; 3; 0] None DisplayState_init)).
Proof.
  apply (decode_channel10_partial_store (6 * 2048 + 4 * 32 + 5) 1 2 3 0 None
           DisplayState_init).
  reflexivity.
Defined.

(** ** Manual control *)

Section SimulatorFacts.

Import Simulator.

Variable k : pygame_keys.

Lemma max_digits_cases (self : DSKYSimulator) :
  _get_max_digits self = 2 \/ _get_max_digits self = 5.
Proof. unfold _get_max_digits. destruct (_ || _); auto. Qed.

Lemma max_digits_select (st : DisplayState) (elem : string) (i : Z) :
  0 <= 0 < _get_max_digits (mkSim st elem i).
Proof. destruct (max_digits_cases (mkSim st elem i)) as [-> | ->]; lia. Qed.

Lemma setitem_int_in_range (l : list Z) (i x : Z) :
  0 <= i < Z.of_nat (length l) ->
  setitem_int l i x = Some (<[Z.to_nat i := x]> l).
Proof.
  intros Hi. unfold setitem_int.
  destruct (Z.leb_spec 0 i); [| lia].
  destruct (Z.ltb_spec i (Z.of_nat (length l))); [reflexivity | lia].
Qed.

Lemma wf_state_lengths (st : DisplayState) :
  wf_state st ->
  length (prog st) = 2%nat /\ length (verb st) = 2%nat /\ length (noun st) = 2%nat
  /\ length (r1 st) = 5%nat /\ length (r2 st) = 5%nat /\ length (r3 st) = 5%nat.
Proof. intros H. exact H. Qed.

(** Entering a digit under a cursor that is in range stores it and moves the
    cursor on, in range again. *)
Lemma set_digit_ok (digit : Z) (self : DSKYSimulator) :
  cursor_ok self ->
  exists self',
    _set_digit digit self = SimNormal self'
    /\ cursor_ok self'
    /\ selected_element self' = selected_element self
    /\ (is_digit digit -> digits_ok (state self) -> digits_ok (state self')).
Proof.
  intros [Hwf Hcur].
  destruct (wf_state_lengths _ Hwf) as (Hp & Hv & Hn & H1 & H2 & H3).
  assert (Hmax : 0 <= (selected_digit self + 1) mod _get_max_digits self
                 < _get_max_digits self).
  { apply Z.mod_pos_bound. lia. }
  unfold _set_digit. unfold _get_max_digits in Hcur.
  destruct (String.eqb (selected_element self) "prog") eqn:Eprog;
    [| destruct (String.eqb (selected_element self) "verb") eqn:Everb;
       [| destruct (String.eqb (selected_element self) "noun") eqn:Enoun;
          [| destruct (String.eqb (selected_element self) "r1") eqn:E1;
             [| destruct (String.eqb (selected_element self) "r2") eqn:E2;
                [| destruct (String.eqb (selected_element self) "r3") eqn:E3]]]]];
    cbn [orb] in Hcur;
    try (rewrite setitem_int_in_range by lia);
    (eexists; split; [reflexivity |];
     split;
     [ split; [| exact Hmax];
       unfold wf_state; cbn [state prog verb noun r1 r2 r3
                               with_prog with_verb with_noun with_r1 with_r2 with_r3];
       rewrite ?length_insert; auto
     | split; [reflexivity |];
       intros Hd (Dp & Dv & Dn & D1 & D2 & D3);
       unfold digits_ok; cbn [state prog verb noun r1 r2 r3
                                with_prog with_verb with_noun with_r1 with_r2 with_r3];
       repeat split; try assumption; by apply Forall_insert ]).
Qed.

Lemma patterns_ok (st : DisplayState) :
  (wf_state (pattern_blank st) /\ digits_ok (pattern_blank st))
  /\ (wf_state (pattern_all_eights st) /\ digits_ok (pattern_all_eights st))
  /\ (wf_state (pattern_test st) /\ digits_ok (pattern_test st))
  /\ (wf_state (pattern_counting st) /\ digits_ok (pattern_counting st)).
Proof.
  assert (Hd : forall l : list Z,
             forallb (fun d => (0 <=? d) && (d <=? 9)) l = true ->
             Forall is_digit l).
  { intros l Hl. apply Is_true_true_2, forallb_True in Hl.
    eapply Forall_impl; [exact Hl |]. unfold is_digit. intros x Hx.
    apply Is_true_true_1 in Hx. lia. }
  repeat split; apply Hd; reflexivity.
Qed.

(** One key press. *)
Lemma handle_keyboard_ok (key : Z) (self : DSKYSimulator) :
  cursor_ok self ->
  exists self',
    handle_keyboard k key self = SimNormal self'
    /\ cursor_ok self'
    /\ (K_9 k = K_0 k + 9 -> digits_ok (state self) -> digits_ok (state self')).
Proof.
  intros Hok. pose proof Hok as [Hwf Hcur].
  destruct (patterns_ok (state self))
    as ((Wb & Db) & (We & De) & (Wt & Dt) & (Wc & Dc)).
  assert (Hmod : forall d, 0 <= (selected_digit self + d) mod _get_max_digits self
                           < _get_max_digits self).
  { intros d. apply Z.mod_pos_bound. lia. }
  unfold handle_keyboard.
  destruct ((K_0 k <=? key) && (key <=? K_9 k)) eqn:Hdigit.
  { destruct (set_digit_ok (key - K_0 k) self Hok) as (self' & Hs & Hok' & _ & Hd).
    exists self'. split; [exact Hs |]. split; [exact Hok' |].
    intros Hk. apply Hd. unfold is_digit. lia. }
  destruct (key =? K_F1 k); [eexists; split; [reflexivity |]; split; [split; assumption | auto] |].
  destruct (key =? K_F2 k); [eexists; split; [reflexivity |]; split; [split; assumption | auto] |].
  destruct (key =? K_F3 k); [eexists; split; [reflexivity |]; split; [split; assumption | auto] |].
  destruct (key =? K_F4 k); [eexists; split; [reflexivity |]; split; [split; assumption | auto] |].
  destruct (key =? K_p k);
    [eexists; split; [reflexivity |]; split; [split; [exact Hwf | apply max_digits_select] | auto] |].
  destruct (key =? K_v k);
    [eexists; split; [reflexivity |]; split; [split; [exact Hwf | apply max_digits_select] | auto] |].
  destruct (key =? K_n k);
    [eexists; split; [reflexivity |]; split; [split; [exact Hwf | apply max_digits_select] | auto] |].
  destruct (key =? K_r k).
  { eexists; split; [reflexivity |].
    destruct (String.eqb (selected_element self) "r1");
      [| destruct (String.eqb (selected_element self) "r2")];
      (split; [split; [exact Hwf | apply max_digits_select] | auto]). }
  assert (Hsign : forall g, cursor_ok (_set_sign g self)
                            /\ (digits_ok (state self) -> digits_ok (state (_set_sign g self)))).
  { intros g. unfold _set_sign.
    destruct (String.eqb (selected_element self) "r1");
      [| destruct (String.eqb (selected_element self) "r2");
         [| destruct (String.eqb (selected_element self) "r3")]];
      (split; [split; [exact Hwf | exact Hcur] | auto]). }
  destruct ((key =? K_PLUS k) || (key =? K_EQUALS k));
    [eexists; split; [reflexivity |]; split; [apply Hsign | intros _; apply Hsign] |].
  destruct (key =? K_MINUS k);
    [eexists; split; [reflexivity |]; split; [apply Hsign | intros _; apply Hsign] |].
  destruct (key =? K_c k);
    [eexists; split; [reflexivity |]; split; [split; [exact Hwf | exact Hcur] | auto] |].
  destruct (key =? K_e k);
    [eexists; split; [reflexivity |]; split; [split; [exact Hwf | exact Hcur] | auto] |].
  destruct (key =? K_LEFT k);
    [eexists; split; [reflexivity |]; split; [split; [exact Hwf | apply (Hmod (-1))] | auto] |].
  destruct (key =? K_RIGHT k);
    [eexists; split; [reflexivity |]; split; [split; [exact Hwf | apply (Hmod 1)] | auto] |].
  eexists; split; [reflexivity |]. split; [exact Hok | auto].
Qed.

(** X14: manual control never raises.  From a simulator whose cursor is in
    range of the selected element, over a display state of the constructor's
    shape, any sequence of key presses is handled without an exception, and
    leaves the cursor in range and the display state in shape; when the ten
    digit keys have consecutive codes, digits in 0..9 stay in 0..9. *)
Theorem handle_keys_never_raises (keys : list Z) :
  forall self : DSKYSimulator,
    cursor_ok self ->
    exists self',
      handle_keys k keys self = SimNormal self'
      /\ cursor_ok self'
      /\ (K_9 k = K_0 k + 9 -> digits_ok (state self) -> digits_ok (state self')).
Proof.
  induction keys as [|key keys IH]; intros self Hok.
  - exists self. split; [reflexivity |]. split; [exact Hok | auto].
  - destruct (handle_keyboard_ok key self Hok) as (self1 & H1 & Hok1 & Hd1).
    destruct (IH self1 Hok1) as (self2 & H2 & Hok2 & Hd2).
    exists self2. cbn [handle_keys]. rewrite H1.
    split; [exact H2 |]. split; [exact Hok2 | auto].
Qed.

Lemma handle_keyboard_digit (d : Z) (self : DSKYSimulator) :
  0 <= d <= K_9 k - K_0 k ->
  handle_keyboard k (K_0 k + d) self = _set_digit d self.
Proof.
  intros Hd. unfold handle_keyboard.
  destruct (Z.leb_spec (K_0 k) (K_0 k + d)); [| lia].
  destruct (Z.leb_spec (K_0 k + d) (K_9 k)); [| lia].
  cbn [andb]. f_equal. lia.
Qed.

(** X15: typing digits fills the selected element from the cursor on and
    wraps around.  With the cursor on the first digit, five digit keys fill
    register 1 and two fill PROG, and the cursor is back on the first digit;
    a third digit typed into PROG overwrites its first digit. *)
Theorem typing_fills_element (d0 d1 d2 d3 d4 : Z) (st : DisplayState) :
  wf_state st ->
  0 <= d0 <= K_9 k - K_0 k -> 0 <= d1 <= K_9 k - K_0 k ->
  0 <= d2 <= K_9 k - K_0 k -> 0 <= d3 <= K_9 k - K_0 k ->
  0 <= d4 <= K_9 k - K_0 k ->
  handle_keys k [K_0 k + d0; K_0 k + d1; K_0 k + d2; K_0 k + d3; K_0 k + d4]
    (mkSim st "r1" 0)
  = SimNormal (mkSim (with_r1 [d0; d1; d2; d3; d4] st) "r1" 0)
  /\ handle_keys k [K_0 k + d0; K_0 k + d1] (mkSim st "prog" 0)
     = SimNormal (mkSim (with_prog [d0; d1] st) "prog" 0)
  /\ handle_keys k [K_0 k + d0; K_0 k + d1; K_0 k + d2] (mkSim st "prog" 0)
     = SimNormal (mkSim (with_prog [d2; d1] st) "prog" 1).
Proof.
  intros Hwf H0 H1 H2 H3 H4.
  destruct (wf_state_inv st Hwf)
    as (p0 & p1 & v0 & v1 & n0 & n1 & a0 & a1 & a2 & a3 & a4
        & b0 & b1 & b2 & b3 & b4 & c0 & c1 & c2 & c3 & c4 & ->).
  repeat split;
    cbn [handle_keys];
    repeat (rewrite handle_keyboard_digit by assumption;
            match goal with
            | |- context [_set_digit ?d ?self] =>
                let r := eval vm_compute in (_set_digit d self) in
                change (_set_digit d self) with r
            end; cbv iota beta);
    reflexivity.
Qed.

End SimulatorFacts.

(** R, R, 7, left, 9, minus, F4, 3 on the pygame 2 key codes. *)
Lemma handle_keys_never_raises_witness :
  exists self',
    Simulator.handle_keys Simulator.pygame2
      [114; 114; 55; 1073741904; 57; 45; 1073741885; 51]
      (Simulator.DSKYSimulator_init DisplayState_init)
    = Simulator.SimNormal self'
    /\ Simulator.cursor_ok self'.
Proof.
  destruct (handle_keys_never_raises Simulator.pygame2
              [114; 114; 55; 1073741904; 57; 45; 1073741885; 51]
              (Simulator.DSKYSimulator_init DisplayState_init))
    as (self' & H & Hok & _).
  - split; [exact wf_state_init |]. vm_compute. split; [discriminate | reflexivity].
  - exists self'. split; assumption.
Defined.

(** The keys 1 2 3 4 5 in register 1, 1 2 in PROG, 1 2 3 in PROG. *)
Lemma typing_fills_element_witness :
  Simulator.handle_keys Simulator.pygame2 [49; 50; 51; 52; 53]
    (Simulator.mkSim DisplayState_init "r1" 0)
  = Simulator.SimNormal
      (Simulator.mkSim (with_r1 [1; 2; 3; 4; 5] DisplayState_init) "r1" 0)
  /\ Simulator.handle_keys Simulator.pygame2 [49; 50]
       (Simulator.mkSim DisplayState_init "prog" 0)
     = Simulator.SimNormal
         (Simulator.mkSim (with_prog [1; 2] DisplayState_init) "prog" 0)
  /\ Simulator.handle_keys Simulator.pygame2 [49; 50; 51]
       (Simulator.mkSim DisplayState_init "prog" 0)
     = Simulator.SimNormal
         (Simulator.mkSim (with_prog [3; 2] DisplayState_init) "prog" 1).
Proof.
  apply (typing_fills_element Simulator.pygame2 1 2 3 4 5 DisplayState_init
           wf_state_init);
    simpl; lia.
Defined.

(** ** Merging a configuration over the defaults *)

Section ConfigFacts.

Import Config.

Context {A : Type}.

(** The two equations of the loop of [deep_merge]. *)
Lemma deep_merge_nil (result : dict A) : deep_merge result [] = result.
Proof. reflexivity. Qed.

Lemma deep_merge_cons (result : dict A) (key : string) (v : value A)
    (items : dict A) :
  deep_merge result ((key, v) :: items)
  = deep_merge
      match dict_get key result, v with
      | Some (Dict sub), Dict ov => dict_set key (Dict (deep_merge sub ov)) result
      | _, _ => dict_set key v result
      end
      items.
Proof.
  unfold deep_merge. cbn [deep_merge_value].
  destruct (dict_get key result) as [[a | sub] |], v as [b | ov]; reflexivity.
Qed.

Lemma dict_get_set_eq (key : string) (v : value A) (d : dict A) :
  dict_get key (dict_set key v d) = Some v.
Proof.
  induction d as [|[k w] d IH]; cbn [dict_set dict_get].
  - rewrite String.eqb_refl. reflexivity.
  - destruct (String.eqb k key) eqn:E; cbn [dict_get]; rewrite E; [reflexivity | exact IH].
Qed.

Lemma dict_get_set_ne (key key' : string) (v : value A) (d : dict A) :
  key <> key' -> dict_get key' (dict_set key v d) = dict_get key' d.
Proof.
  intros Hne. induction d as [|[k w] d IH]; cbn [dict_set dict_get].
  - destruct (String.eqb_spec key key'); [contradiction | reflexivity].
  - destruct (String.eqb_spec k key) as [-> | Hk]; cbn [dict_get].
    + destruct (String.eqb_spec key key'); [contradiction | reflexivity].
    + destruct (String.eqb k key'); [reflexivity | exact IH].
Qed.

Lemma dict_get_None (key : string) (d : dict A) :
  dict_get key d = None <-> key ∉ map fst d.
Proof.
  induction d as [|[k w] d IH]; cbn [dict_get map fst].
  - split; [intros _; apply not_elem_of_nil | reflexivity].
  - rewrite not_elem_of_cons.
    destruct (String.eqb_spec k key) as [-> | Hk].
    + split; [discriminate | intros [H _]; contradiction].
    + rewrite IH. split; [intros H; split; [congruence | exact H] | intros [_ H]; exact H].
Qed.

Lemma deep_merge_get (base override : dict A) (key : string) :
  NoDup (map fst override) ->
  dict_get key (deep_merge base override)
  = merge_entry (dict_get key base) (dict_get key override).
Proof.
  revert base. induction override as [|[k v] items IH]; intros base Hnd.
  - reflexivity.
  - cbn [map fst] in Hnd. apply NoDup_cons in Hnd as [Hk Hnd].
    rewrite deep_merge_cons, (IH _ Hnd). cbn [dict_get].
    destruct (String.eqb_spec k key) as [-> | Hne].
    + apply dict_get_None in Hk. rewrite Hk. cbn [merge_entry].
      destruct (dict_get key base) as [[a | sub] |], v as [b | ov];
        rewrite dict_get_set_eq; reflexivity.
    + f_equal.
      destruct (dict_get k base) as [[a | sub] |], v as [b | ov];
        by rewrite dict_get_set_ne.
Qed.

(** X16: the merged dictionary, key by key.  A key the override lacks keeps
    the base's entry; a key under which both hold dictionaries gets their
    merge; under any other key the override's value replaces the base's,
    dictionary or not. *)
Theorem deep_merge_lookup (base override : dict A) (key : string) :
  NoDup (map fst override) ->
  dict_get key (deep_merge base override)
  = merge_entry (dict_get key base) (dict_get key override)
  /\ (dict_get key override = None ->
      dict_get key (deep_merge base override) = dict_get key base)
  /\ (forall a, dict_get key override = Some (Leaf a) ->
                dict_get key (deep_merge base override) = Some (Leaf a))
  /\ (forall ov, dict_get key override = Some (Dict ov) ->
                 forall bb, dict_get key base = Some (Dict bb) ->
                 dict_get key (deep_merge base override)
                 = Some (Dict (deep_merge bb ov))).
Proof.
  intros Hnd. pose proof (deep_merge_get base override key Hnd) as H.
  split; [exact H |]. split; [| split].
  - intros Ho. rewrite H, Ho. reflexivity.
  - intros a Ho. rewrite H, Ho. reflexivity.
  - intros ov Ho bb Hb. rewrite H, Ho, Hb. reflexivity.
Qed.

Lemma dict_set_keys (key : string) (v : value A) (d : dict A) :
  map fst (dict_set key v d)
  = if decide (key ∈ map fst d) then map fst d else map fst d ++ [key].
Proof.
  induction d as [|[k w] d IH]; cbn [dict_set map fst].
  - rewrite decide_False by apply not_elem_of_nil. reflexivity.
  - destruct (String.eqb_spec k key) as [-> | Hk]; cbn [map fst].
    + rewrite decide_True by apply list_elem_of_here. reflexivity.
    + rewrite IH. destruct (decide (key ∈ map fst d)) as [Hin | Hin].
      * rewrite decide_True by (by apply list_elem_of_further). reflexivity.
      * rewrite decide_False; [reflexivity |].
        rewrite not_elem_of_cons. split; [congruence | exact Hin].
Qed.

Lemma dict_set_new (key : string) (v : value A) (d : dict A) :
  key ∉ map fst d -> dict_set key v d = d ++ [(key, v)].
Proof.
  induction d as [|[k w] d IH]; cbn [dict_set map fst app]; intros Hk.
  - reflexivity.
  - apply not_elem_of_cons in Hk as [Hne Hk].
    destruct (String.eqb_spec k key) as [-> | _]; [contradiction |].
    rewrite IH by exact Hk. reflexivity.
Qed.

Lemma filter_ext_elem (P Q : string -> Prop)
    `{!forall x, Decision (P x)} `{!forall x, Decision (Q x)} (l : list string) :
  (forall x, x ∈ l -> (P x <-> Q x)) -> filter P l = filter Q l.
Proof.
  induction l as [|x l IH]; intros Hext; [reflexivity |].
  rewrite !filter_cons.
  assert (Hx : P x <-> Q x) by (apply Hext, list_elem_of_here).
  assert (Hl : filter P l = filter Q l)
    by (apply IH; intros y Hy; apply Hext; by apply list_elem_of_further).
  destruct (decide (P x)), (decide (Q x)); rewrite ?Hl; tauto.
Qed.

(** X17: the keys of the merged dictionary are the keys of the base, in the
    base's order, followed by the keys only the override has, in the
    override's order; each key occurs once when it does in the base.
    Merging an override over the empty dictionary gives the override back,
    and merging the empty override changes nothing. *)
Theorem deep_merge_keys (base override : dict A) :
  NoDup (map fst override) ->
  map fst (deep_merge base override)
  = map fst base ++ filter (fun key => key ∉ map fst base) (map fst override)
  /\ (NoDup (map fst base) -> NoDup (map fst (deep_merge base override)))
  /\ deep_merge [] override = override
  /\ deep_merge base [] = base.
Proof.
  intros Hnd.
  assert (Hkeys : forall (items result : dict A),
            NoDup (map fst items) ->
            map fst (deep_merge result items)
            = map fst result
              ++ filter (fun key => key ∉ map fst result) (map fst items)).
  { clear. induction items as [|[k v] items IH]; intros result Hnd.
    - cbn. rewrite app_nil_r. reflexivity.
    - cbn [map fst] in Hnd. apply NoDup_cons in Hnd as [Hk Hnd].
      rewrite deep_merge_cons, (IH _ Hnd).
      set (result' := match dict_get k result, v with
                      | Some (Dict sub), Dict ov =>
                          dict_set k (Dict (deep_merge sub ov)) result
                      | _, _ => dict_set k v result
                      end).
      assert (Hr : map fst result'
                   = if decide (k ∈ map fst result) then map fst result
                     else map fst result ++ [k]).
      { subst result'.
        destruct (dict_get k result) as [[a | sub] |], v as [b | ov];
          apply dict_set_keys. }
      rewrite Hr. cbn [map fst]. rewrite filter_cons.
      destruct (decide (k ∈ map fst result)) as [Hin | Hin].
      + rewrite decide_False by (intros H; by apply H). reflexivity.
      + rewrite decide_True by exact Hin.
        rewrite <- app_assoc. cbn [app]. do 2 f_equal.
        apply filter_ext_elem. intros x Hx.
        rewrite not_elem_of_app, not_elem_of_cons. split; [tauto |].
        intros H. split; [exact H |].
        split; [intros -> ; contradiction | apply not_elem_of_nil]. }
  split; [by apply Hkeys |].
  split.
  { intros Hb. rewrite (Hkeys _ _ Hnd). apply NoDup_app.
    split; [exact Hb |]. split.
    - intros x Hx Hf. apply list_elem_of_filter in Hf as [Hn _]. contradiction.
    - by apply NoDup_filter. }
  split; [| apply deep_merge_nil].
  assert (Happ : forall (items pre : dict A),
            NoDup (map fst items) ->
            (forall x, x ∈ map fst items -> x ∉ map fst pre) ->
            deep_merge pre items = pre ++ items).
  { clear. induction items as [|[k v] items IH]; intros pre Hnd Hdis.
    - rewrite deep_merge_nil, app_nil_r. reflexivity.
    - cbn [map fst] in Hnd, Hdis. apply NoDup_cons in Hnd as [Hk Hnd].
      assert (Hkp : k ∉ map fst pre) by (apply Hdis, list_elem_of_here).
      rewrite deep_merge_cons.
      assert (Hget : dict_get k pre = None) by (by apply dict_get_None).
      rewrite Hget, (dict_set_new _ _ _ Hkp).
      rewrite IH; [by rewrite <- app_assoc | exact Hnd |].
      intros x Hx. rewrite map_app, not_elem_of_app. cbn [map fst].
      split; [apply Hdis; by apply list_elem_of_further |].
      rewrite not_elem_of_cons. split; [intros ->; contradiction | apply not_elem_of_nil]. }
  apply (Happ override [] Hnd). intros x _. apply not_elem_of_nil.
Qed.

Lemma keys_unique_get (key : string) (d : dict A) (v : value A) :
  keys_unique (Dict d) -> dict_get key d = Some v -> keys_unique v.
Proof.
  intros [_ Hall]. induction d as [|[k w] d IH]; cbn [dict_get]; [discriminate |].
  destruct Hall as [Hw Hall].
  destruct (String.eqb k key); [intros [= <-]; exact Hw | by apply IH].
Qed.

(** X18: the override takes precedence.  A value that the override holds at
    the end of a path of keys, and that is not a dictionary, is the value
    the merged dictionary holds at that path, whatever the base holds
    there. *)
Theorem deep_merge_override_wins (path : list string) :
  forall (base override : dict A) (a : A),
    keys_unique (Dict override) ->
    lookup_path path (Dict override) = Some (Leaf a) ->
    lookup_path path (Dict (deep_merge base override)) = Some (Leaf a).
Proof.
  induction path as [|key path IH]; intros base override a Hu Hl.
  - discriminate Hl.
  - cbn [lookup_path] in *.
    destruct (dict_get key override) as [v |] eqn:Hov; [| discriminate].
    rewrite (deep_merge_get base override key (proj1 Hu)), Hov.
    pose proof (keys_unique_get _ _ _ Hu Hov) as Huv.
    destruct v as [b | ov]; cbn [merge_entry]; [exact Hl |].
    destruct (dict_get key base) as [[c | bb] |]; try exact Hl.
    destruct path as [|key' path']; [discriminate Hl |].
    apply (IH bb ov a Huv Hl).
Qed.

Lemma untouched_lookup (path : list string) :
  forall override : dict A,
    untouched path override -> lookup_path path (Dict override) = None.
Proof.
  induction path as [|key path IH]; intros override Hun; [contradiction |].
  cbn [lookup_path untouched] in *.
  destruct (dict_get key override) as [[b | ov] |]; [contradiction | | reflexivity].
  destruct path as [|key' path']; [contradiction |].
  apply (IH ov Hun).
Qed.

(** X19: the defaults survive where the override is silent.  At a path the
    override does not reach, because it lacks a key of the path below
    dictionaries only, the merged dictionary holds what the base holds. *)
Theorem deep_merge_base_kept (path : list string) :
  forall (base override : dict A),
    keys_unique (Dict override) ->
    untouched path override ->
    lookup_path path (Dict (deep_merge base override))
    = lookup_path path (Dict base).
Proof.
  induction path as [|key path IH]; intros base override Hu Hun; [contradiction |].
  cbn [lookup_path untouched] in *.
  rewrite (deep_merge_get base override key (proj1 Hu)).
  destruct (dict_get key override) as [[b | ov] |] eqn:Hov;
    [contradiction | | reflexivity].
  pose proof (keys_unique_get _ _ _ Hu Hov) as Huv.
  cbn [merge_entry].
  destruct path as [|key' path']; [contradiction |].
  destruct (dict_get key base) as [[c | bb] |].
  - apply (untouched_lookup (key' :: path') ov Hun).
  - apply (IH bb ov Huv Hun).
  - apply (untouched_lookup (key' :: path') ov Hun).
Qed.

End ConfigFacts.

Lemma host_only_unique : Config.keys_unique (Config.Dict host_only).
Proof. cbn. repeat split; apply NoDup_singleton. Qed.

(** The file that names only the host: the logging section is the default
    one. *)
Lemma deep_merge_lookup_witness :
  Config.dict_get "logging" (Config.apply_defaults host_only)
  = Config.dict_get "logging" Config.defaults.
Proof.
  destruct (deep_merge_lookup Config.defaults host_only "logging") as (_ & H & _).
  - apply NoDup_singleton.
  - apply H. reflexivity.
Defined.

Lemma deep_merge_keys_witness :
  map fst (Config.apply_defaults host_only)
  = ["display"; "communication"; "layout"; "error_display"; "logging"]%string.
Proof.
  destruct (deep_merge_keys Config.defaults host_only) as (H & _).
  - apply NoDup_singleton.
  - exact H.
Defined.

Lemma deep_merge_override_wins_witness :
  Config.lookup_path ["communication"; "yaagc"; "host"]%string
    (Config.Dict (Config.apply_defaults host_only))
  = Some (Config.Leaf (Config.PStr "192.168.1.10")).
Proof.
  apply (deep_merge_override_wins ["communication"; "yaagc"; "host"]%string
           Config.defaults host_only).
  - exact host_only_unique.
  - reflexivity.
Defined.

Lemma deep_merge_base_kept_witness :
  Config.lookup_path ["communication"; "yaagc"; "port"]%string
    (Config.Dict (Config.apply_defaults host_only))
  = Some (Config.Leaf (Config.PInt 19799)).
Proof.
  apply (deep_merge_base_kept ["communication"; "yaagc"; "port"]%string
           Config.defaults host_only).
  - exact host_only_unique.
  - exact I.
Defined.

(** ** A full refresh of the display *)

Lemma decode_channel10_step (value r : Z) (s : DisplayState) :
  wf_state s -> relay_of value = r ->
  decode_channel10 value s
  = Normal (table_effect r (Z.testbit value 10)
              (digit_of (digit1_of value)) (digit_of (digit2_of value)) s).
Proof.
  intros Hwf <-. rewrite (decode_channel10_table value s Hwf), !stored_digit_of.
  reflexivity.
Qed.

(** X20: eleven channel-10 values, one per relay code from 11 down to 1,
    applied in that order to a display state of the constructor's shape,
    determine every digit and every sign of the display, whatever it showed
    before; [comp_acty] and [connected] are kept.  Register 1 shows the two
    digits of relay 8, the first digit of relay 7 and the two digits of relay
    6: the second digit of relay 7 goes to r1[3], where relay 6 overwrites
    it. *)
Theorem full_refresh
    (v11 v10 v9 v8 v7 v6 v5 v4 v3 v2 v1 : Z) (s : DisplayState) :
  wf_state s ->
  relay_of v11 = 11 -> relay_of v10 = 10 -> relay_of v9 = 9 ->
  relay_of v8 = 8 -> relay_of v7 = 7 -> relay_of v6 = 6 ->
  relay_of v5 = 5 -> relay_of v4 = 4 -> relay_of v3 = 3 ->
  relay_of v2 = 2 -> relay_of v1 = 1 ->
  let D1 v := digit_of (digit1_of v) in
  let D2 v := digit_of (digit2_of v) in
  let sign v := Some (sign_string (Z.testbit v 10)) in
  foldl (fun o v => o ;;; decode_channel10 v) (Normal s)
    [v11; v10; v9; v8; v7; v6; v5; v4; v3; v2; v1]
  = Normal
      (mkDisplayState
         [D1 v11; D2 v11] [D1 v10; D2 v10] [D1 v9; D2 v9]
         [D1 v8; D2 v8; D1 v7; D1 v6; D2 v6]
         [D1 v5; D2 v5; D1 v4; D2 v4; D1 v3]
         [D2 v3; D1 v2; D2 v2; D1 v1; D2 v1]
         (sign v7) (sign v5) (sign v2)
         (comp_acty s) (connected s)).
Proof.
  intros Hwf H11 H10 H9 H8 H7 H6 H5 H4 H3 H2 H1 D1 D2 sign.
  destruct (wf_state_inv s Hwf)
    as (p0 & p1 & w0 & w1 & n0 & n1 & a0 & a1 & a2 & a3 & a4
        & b0 & b1 & b2 & b3 & b4 & c0 & c1 & c2 & c3 & c4 & ->).
  cbn [foldl and_then].
  rewrite (decode_channel10_step v11 11) by (repeat split || assumption).
  cbn [and_then table_effect]; unfold with_prog; cbn [verb noun r1 r2 r3
    r1_sign r2_sign r3_sign comp_acty connected].
  rewrite (decode_channel10_step v10 10) by (repeat split || assumption).
  cbn [and_then table_effect]; unfold with_verb; cbn [prog noun r1 r2 r3
    r1_sign r2_sign r3_sign comp_acty connected].
  rewrite (decode_channel10_step v9 9) by (repeat split || assumption).
  cbn [and_then table_effect]; unfold with_noun; cbn [prog verb r1 r2 r3
    r1_sign r2_sign r3_sign comp_acty connected].
  rewrite (decode_channel10_step v8 8) by (repeat split || assumption).
  cbn.
  rewrite (decode_channel10_step v7 7) by (repeat split || assumption).
  cbn.
  rewrite (decode_channel10_step v6 6) by (repeat split || assumption).
  cbn.
  rewrite (decode_channel10_step v5 5) by (repeat split || assumption).
  cbn.
  rewrite (decode_channel10_step v4 4) by (repeat split || assumption).
  cbn.
  rewrite (decode_channel10_step v3 3) by (repeat split || assumption).
  cbn.
  rewrite (decode_channel10_step v2 2) by (repeat split || assumption).
  cbn.
  rewrite (decode_channel10_step v1 1) by (repeat split || assumption).
  reflexivity.
Qed.

(** The refresh that shows PROG 16, VERB 37, NOUN 06 and the registers
    +12345, -67890, +13579. *)
Lemma full_refresh_witness :
  foldl (fun o v => o ;;; decode_channel10 v) (Normal DisplayState_init)
    [22566; 20583; 18438; 16418; 14436; 12421; 11463; 8457; 6145; 4197; 2281]
  = Normal
      (mkDisplayState [1; 6] [3; 7] [0; 6]
         [1; 2; 3; 4; 5] [6; 7; 8; 9; 0] [1; 3; 5; 7; 9]
         (Some "+"%string) (Some "-"%string) (Some "+"%string) false true).
Proof.
  apply (full_refresh 22566 20583 18438 16418 14436 12421 11463 8457 6145 4197 2281
           DisplayState_init wf_state_init); reflexivity.
Defined.
